(** * Verification of the Uniswap-v3 pool bootstrap script ([src/index.ts])

    The script deploys two ERC20 tokens, creates and initialises a pool for
    the ordered pair, grants allowances, mints a liquidity position and runs a
    test swap, resuming from [cache.json] on later runs.

    The embedding is shallow.  Pure TypeScript expressions become Rocq
    functions over [Z] (bigint and safe-integer numbers), [string] and
    records.  Every interaction with the outside world (RPC client, clock,
    cache file) becomes a node of a finite interaction tree [Prog]; a run
    against an arbitrary, history-dependent environment produces the trace of
    interactions together with the outcome of the script. *)

From Stdlib Require Import ZArith List String Ascii Bool Lia Floats.
Import ListNotations.
Local Open Scope string_scope.
Local Open Scope Z_scope.

(* ================================================================== *)
(** * JavaScript strings and bigints *)
(* ================================================================== *)

Module Js.

(** [s.toLowerCase()] on the ASCII range (addresses are ASCII). *)
Definition lower_ascii (c : ascii) : ascii :=
  let n := N_of_ascii c in
  if ((65 <=? n) && (n <=? 90))%N then ascii_of_N (n + 32) else c.

Fixpoint toLowerCase (s : string) : string :=
  match s with
  | EmptyString => EmptyString
  | String c r => String (lower_ascii c) (toLowerCase r)
  end.

(** [a < b] on strings: lexicographic on code units. *)
Definition lt (a b : string) : bool := String.ltb a b.

(** Truthiness of an optional string ([undefined], [null] and [""] are
    falsy). *)
Definition truthy (o : option string) : bool :=
  match o with
  | Some (String _ _) => true
  | _ => false
  end.

Definition is_digit (c : ascii) : bool :=
  let n := N_of_ascii c in ((48 <=? n) && (n <=? 57))%N.

Definition digit_value (c : ascii) : Z := Z.of_N (N_of_ascii c) - 48.

Definition digit_char (d : Z) : ascii := ascii_of_N (Z.to_N (d + 48)).

Fixpoint all_digits (s : string) : bool :=
  match s with
  | EmptyString => true
  | String c r => is_digit c && all_digits r
  end.

(** Value of a run of decimal digits, most significant first. *)
Fixpoint digits_value (acc : Z) (s : string) : option Z :=
  match s with
  | EmptyString => Some acc
  | String c r =>
      if is_digit c then digits_value (10 * acc + digit_value c) r else None
  end.

(** [BigInt(s)] for the decimal forms: an optional sign followed by
    digits; the empty string is [0n], a lone sign is a SyntaxError. *)
Definition BigInt_dec (s : string) : option Z :=
  match s with
  | String c (String _ _ as r) =>
      if Ascii.eqb c "-" then option_map Z.opp (digits_value 0 r)
      else if Ascii.eqb c "+" then digits_value 0 r
      else digits_value 0 s
  | _ => digits_value 0 s
  end.

Definition hex_value (c : ascii) : option Z :=
  let n := N_of_ascii c in
  if ((48 <=? n) && (n <=? 57))%N then Some (Z.of_N n - 48)
  else if ((97 <=? n) && (n <=? 102))%N then Some (Z.of_N n - 87)
  else if ((65 <=? n) && (n <=? 70))%N then Some (Z.of_N n - 55)
  else None.

Fixpoint hex_digits_value (acc : Z) (s : string) : option Z :=
  match s with
  | EmptyString => Some acc
  | String c r =>
      match hex_value c with
      | Some d => hex_digits_value (16 * acc + d) r
      | None => None
      end
  end.

(** [BigInt(s)] for the forms the script meets: [0x]-prefixed hexadecimal
    and signed decimal.  Binary and octal literals and surrounding white
    space do not occur and are rejected here. *)
Definition BigInt (s : string) : option Z :=
  match s with
  | String c0 (String c1 (String _ _ as r)) =>
      if Ascii.eqb c0 "0" && (Ascii.eqb c1 "x" || Ascii.eqb c1 "X")
      then hex_digits_value 0 r
      else BigInt_dec s
  | _ => BigInt_dec s
  end.

(** Decimal digits of a non-negative bigint, least significant digit
    produced first and pushed in front of [acc]. *)
Fixpoint digits_of (fuel : nat) (n : Z) (acc : string) : string :=
  match fuel with
  | O => acc
  | S f =>
      let acc' := String (digit_char (n mod 10)) acc in
      if n / 10 =? 0 then acc' else digits_of f (n / 10) acc'
  end.

(** [String(n)] for a bigint [n]. *)
Definition String_of_bigint (n : Z) : string :=
  if n <? 0
  then String "-" (digits_of (S (Z.to_nat (Z.log2 (- n)))) (- n) EmptyString)
  else digits_of (S (Z.to_nat (Z.log2 n))) n EmptyString.

Fixpoint repeat0 (n : nat) : string :=
  match n with
  | O => EmptyString
  | S k => String "0" (repeat0 k)
  end.

(** [s.padEnd(n, '0')] and [s.padStart(n, '0')]. *)
Definition padEnd0 (s : string) (n : nat) : string :=
  s ++ repeat0 (n - String.length s).

Definition padStart0 (s : string) (n : nat) : string :=
  repeat0 (n - String.length s) ++ s.

(** [s.slice(a, b)] and [s.slice(a)] for indices [0 <= a <= b]. *)
Definition slice (a b : nat) (s : string) : string := substring a (b - a) s.

Definition sliceFrom (a : nat) (s : string) : string :=
  substring a (String.length s - a) s.

(** [s.slice(-n)]: the last [n] code units (all of [s] when shorter). *)
Definition sliceLast (n : nat) (s : string) : string :=
  sliceFrom (String.length s - n) s.

(** [s.replace(/(0+)$/, '')]. *)
Fixpoint trimTrailingZeros (s : string) : string :=
  match s with
  | EmptyString => EmptyString
  | String c r =>
      match trimTrailingZeros r with
      | EmptyString => if Ascii.eqb c "0" then EmptyString else String c EmptyString
      | r' => String c r'
      end
  end.

(** [s.split('.')]. *)
Fixpoint split_dot (s : string) : list string :=
  match s with
  | EmptyString => [EmptyString]
  | String c r =>
      if Ascii.eqb c "."
      then EmptyString :: split_dot r
      else match split_dot r with
           | p :: ps => String c p :: ps
           | [] => [String c EmptyString]
           end
  end.

Fixpoint drop_digits (s : string) : string :=
  match s with
  | String c r => if is_digit c then drop_digits r else s
  | EmptyString => EmptyString
  end.

(** The validity test of [parseUnits]: an optional minus sign, a run of
    digits, an optional dot, a run of digits, and nothing else. *)
Definition decimal_regex (s : string) : bool :=
  let s1 := match s with
            | String c r => if Ascii.eqb c "-" then r else s
            | EmptyString => s
            end in
  let s2 := drop_digits s1 in
  let s3 := match s2 with
            | String c r => if Ascii.eqb c "." then r else s2
            | EmptyString => s2
            end in
  all_digits s3.

Definition startsWithMinus (s : string) : bool :=
  match s with
  | String c _ => Ascii.eqb c "-"
  | EmptyString => false
  end.

End Js.

(* ================================================================== *)
(** * viem: [parseEther] *)
(* ================================================================== *)

Section ParseEther.

(** [Math.round(Number(s))] for a decimal literal [s] of the shape
    [d.ddd...]: a double-precision operation of the runtime, kept
    abstract.  It is reached only for fractions of more than 18 digits. *)
Variable Math_round_Number : string -> Z.

(** viem's [parseUnits(value, 18)].  [None] is a thrown error. *)
Definition parseEther (value : string) : option Z :=
  if negb (Js.decimal_regex value) then None else
  let parts := Js.split_dot value in
  let integer0 := hd EmptyString parts in
  let fraction0 := match tl parts with f :: _ => f | [] => "0" end in
  let negative := Js.startsWithMinus integer0 in
  let integer1 := if negative then Js.sliceFrom 1 integer0 else integer0 in
  let fraction1 := Js.trimTrailingZeros fraction0 in
  let pieces : option (string * string) :=
    if (18 <? String.length fraction1)%nat then
      let left := Js.slice 0 17 fraction1 in
      let unit := Js.slice 17 18 fraction1 in
      let right := Js.sliceFrom 18 fraction1 in
      let rounded := Math_round_Number (unit ++ "." ++ right) in
      match Js.BigInt_dec left, Js.BigInt_dec integer1 with
      | Some l, Some i =>
          let fraction2 :=
            if 9 <? rounded
            then Js.padStart0 (Js.String_of_bigint (l + 1) ++ "0") 18
            else left ++ Js.String_of_bigint rounded in
          if (18 <? String.length fraction2)%nat
          then Some (Js.String_of_bigint (i + 1),
                     Js.slice 0 18 (Js.sliceFrom 1 fraction2))
          else Some (integer1, Js.slice 0 18 fraction2)
      | _, _ => None
      end
    else Some (integer1, Js.padEnd0 fraction1 18) in
  match pieces with
  | Some (integer, fraction) =>
      Js.BigInt_dec ((if negative then "-" else "") ++ integer ++ fraction)
  | None => None
  end.

End ParseEther.

(* ================================================================== *)
(** * Data model *)
(* ================================================================== *)

Definition Address := string.
Definition Hex := string.
Definition Hash := string.

(** [type Token]. *)
Record Token := mkToken {
  address : Address;
  tokenName : string;
  tokenSymbol : string;
  tokenSupply : Z
}.

(** A token record of [cache.json]: as [Token], the supply a string. *)
Record CachedToken := mkCachedToken {
  cached_address : Address;
  cached_tokenName : string;
  cached_tokenSymbol : string;
  cached_tokenSupply : string
}.

(** The object held in [cache.json]; a missing key is [None]. *)
Record Cache := mkCache {
  cache_tokenOne : option CachedToken;
  cache_tokenTwo : option CachedToken;
  cache_poolAddress : option Address
}.

Definition emptyCache : Cache := mkCache None None None.

Record Log := mkLog { log_data : Hex }.

(** The fields of a transaction receipt that the script reads. *)
Record Receipt := mkReceipt {
  contractAddress : option Address;
  logs : list Log
}.

(** Arguments of a contract call. *)
#[warnings="-register-all"]
Inductive AbiArg :=
| ArgAddress (a : Address)
| ArgUint (n : Z)
| ArgString (s : string)
| ArgStruct (fields : list (string * AbiArg)).

(** The parameters of [walletClient.writeContract] that vary ([abi] and
    [chain] are constants of the script). *)
Record WriteRequest := mkWrite {
  w_address : Address;
  w_functionName : string;
  w_args : list AbiArg;
  w_account : Address;
  w_nonce : option Z
}.

(** What the four pool reads of [Promise.all] deliver. *)
Record PoolState := mkPoolState {
  ps_tickSpacing : Z;
  ps_fee : Z;
  ps_liquidity : Z;
  ps_slot0 : Z * Z  (* sqrtPriceX96, tick *)
}.

Record TxRequest := mkTxRequest {
  tx_account : Address;
  tx_data : Hex;
  tx_to : Address;
  tx_value : Z;
  tx_nonce : Z
}.

Record MintOptions := mkMintOptions {
  recipient : Address;
  deadline : Z;
  slippageTolerance : Z * Z
}.

(** [contractAddress[abstractTestnet.name]]. *)
Record Contracts := mkContracts {
  FACTORY_ADDRESS : Address;
  SWAP_ROUTER_ADDRESS : Address;
  NONFUNGIBLE_TOKEN_POSITION_MANAGER_ADDRESS : Address;
  WETH_ADDRESS : Address;
  QUOTER_V2_ADDRESS : Address
}.

Definition wantedContracts : Contracts := {|
  FACTORY_ADDRESS := "0x2E17FF9b877661bDFEF8879a4B31665157a960F0";
  SWAP_ROUTER_ADDRESS := "0xb9D4347d129a83cBC40499Cd4fF223dE172a70dF";
  NONFUNGIBLE_TOKEN_POSITION_MANAGER_ADDRESS :=
    "0x069f199763c045A294C7913E64bA80E5F362A5d7";
  WETH_ADDRESS := "0x9EDCde0257F2386Ce177C3a7FCdd97787F0D841d";
  QUOTER_V2_ADDRESS := "0xdE41045eb15C8352413199f35d6d1A32803DaaE2"
|}.

(** [abstractTestnet.id]. *)
Definition chainId : Z := 11124.

Definition token_one_name := "Pudgy".
Definition token_one_symbol := "PUDGY".
Definition token_two_name := "Penguin".
Definition token_two_symbol := "PENGUIN".
Definition pool_fee : Z := 500.

(* ================================================================== *)
(** * Effects, programs and runs *)
(* ================================================================== *)

(** The requests the script sends out, indexed by the type of the answer. *)
Inductive effectE : Type -> Type :=
| GetBalance (account : Address) : effectE Z
| DeployContract (account : Address) (name symbol : string) (supply : Z) : effectE Hash
| WaitForTransactionReceipt (hash : Hash) : effectE Receipt
| WriteContract (req : WriteRequest) : effectE Hash
| GetTransactionCount (account : Address) : effectE Z
| ReadAllowance (token owner spender : Address) : effectE Z
| ReadPoolState (pool : option Address) : effectE PoolState
| PrepareTransactionRequest (account : Address) (data : Hex) (to : Address)
    (value nonce : Z) : effectE TxRequest
| SignTransaction (request : TxRequest) : effectE Hex
| SendRawTransaction (serialized : Hex) : effectE Hash
| CallContract (to : Address) (data : Hex) : effectE (option Hex)
| DateNow : effectE Z
| SaveCache (data : Cache) : effectE unit.

(** Outcome of a request or of a program: a value or a thrown error. *)
Inductive Outcome (A : Type) : Type :=
| Ok (a : A)
| Err (msg : string).
Arguments Ok {A} a.
Arguments Err {A} msg.

(** An async function of the script: a finite tree of requests. *)
Inductive Prog (A : Type) : Type :=
| Ret (a : A)
| Throw (msg : string)
| Vis {X : Type} (e : effectE X) (k : X -> Prog A).
Arguments Ret {A} a.
Arguments Throw {A} msg.
Arguments Vis {A X} e k.

Fixpoint bind {A B} (p : Prog A) (f : A -> Prog B) : Prog B :=
  match p with
  | Ret a => f a
  | Throw m => Throw m
  | Vis e k => Vis e (fun x => bind (k x) f)
  end.

(** [await request]. *)
Definition await {X} (e : effectE X) : Prog X := Vis e Ret.

(** A library call that may throw. *)
Definition orThrow {A} (msg : string) (o : option A) : Prog A :=
  match o with
  | Some a => Ret a
  | None => Throw msg
  end.

Declare Scope prog_scope.
Delimit Scope prog_scope with prog.
Notation "x <- p ;; q" := (bind p (fun x => q))
  (at level 61, p at next level, right associativity) : prog_scope.
Notation "' pat <- p ;; q" := (bind p (fun x => match x with pat => q end))
  (at level 61, pat pattern, p at next level, right associativity) : prog_scope.
Notation "p ;;; q" := (bind p (fun _ => q))
  (at level 61, right associativity) : prog_scope.
Local Open Scope prog_scope.

(** One completed interaction: the request and how the world answered. *)
Inductive Entry : Type :=
| Interaction {X : Type} (e : effectE X) (r : Outcome X).

Definition Trace := list Entry.

(** The world: it answers each request, knowing everything that happened
    before. *)
Definition World := forall X, Trace -> effectE X -> Outcome X.

(** Runs [p] after the interactions [hist]; returns the extended trace and
    the outcome. *)
Fixpoint run {A} (w : World) (hist : Trace) (p : Prog A) : Trace * Outcome A :=
  match p with
  | Ret a => (hist, Ok a)
  | Throw m => (hist, Err m)
  | Vis e k =>
      match w _ hist e with
      | Ok x => run w (hist ++ [Interaction e (Ok x)])%list (k x)
      | Err m => ((hist ++ [Interaction e (Err m)])%list, Err m)
      end
  end.

(** [wp p Q]: whatever the world answers, the interactions [p] adds and
    its outcome satisfy [Q]. *)
Fixpoint wp {A} (p : Prog A) (Q : Trace -> Outcome A -> Prop) : Prop :=
  match p with
  | Ret a => Q [] (Ok a)
  | Throw m => Q [] (Err m)
  | Vis e k =>
      (forall m, Q [Interaction e (Err m)] (Err m)) /\
      (forall x, wp (k x) (fun tr o => Q (Interaction e (Ok x) :: tr) o))
  end.

(** Projections of trace entries. *)
Definition asWrite (e : Entry) : option WriteRequest :=
  match e with
  | Interaction (WriteContract req) _ => Some req
  | _ => None
  end.

Definition isDeploy (e : Entry) : bool :=
  match e with
  | Interaction (DeployContract _ _ _ _) _ => true
  | _ => false
  end.

Definition isSaveCache (e : Entry) : bool :=
  match e with
  | Interaction (SaveCache _) _ => true
  | _ => false
  end.

Definition isCallContract (e : Entry) : bool :=
  match e with
  | Interaction (CallContract _ _) _ => true
  | _ => false
  end.

Definition isWriteTo (fn : string) (e : Entry) : bool :=
  match asWrite e with
  | Some req => String.eqb (w_functionName req) fn
  | None => false
  end.

(* ================================================================== *)
(** * External libraries *)
(* ================================================================== *)

(** The parts of viem and of the runtime that stay opaque.  [None] stands
    for a thrown error. *)
Record Viem := mkViem {
  privateKeyToAccount : string -> option Address;
  (** checksum form of an address; throws on anything that is not 20 bytes
      of hex after [0x] *)
  getAddress : string -> option Address;
  (** [decodeAbiParameters([{ type: "uint256" }], data)[0]] *)
  decodeUint256 : Hex -> option Z;
  Math_round_Number : string -> Z
}.

(** The pool-math library (@uniswap/v3-sdk and sdk-core): constructors and
    encoders, each of which may throw on a violated invariant. *)
Record UniswapSdk := mkSdk {
  SdkToken : Type;
  SdkPool : Type;
  SdkPosition : Type;
  SdkRoute : Type;
  SdkAmount : Type;
  newToken : Z -> Address -> Z -> string -> string -> option SdkToken;
  sdk_address : SdkToken -> Address;
  newPool : SdkToken -> SdkToken -> Z -> string -> string -> Z -> option SdkPool;
  nearestUsableTick : Z -> Z -> option Z;
  newPosition : SdkPool -> string -> Z -> Z -> option SdkPosition;
  addCallParameters : SdkPosition -> MintOptions -> option (Hex * Hex);
  newRoute : list SdkPool -> SdkToken -> SdkToken -> option SdkRoute;
  fromRawAmount : SdkToken -> string -> option SdkAmount;
  (** [SwapQuoter.quoteCallParameters(route, amount, EXACT_INPUT,
      { useQuoterV2: true }).calldata] *)
  quoteCallParameters : SdkRoute -> SdkAmount -> option Hex
}.

(* ================================================================== *)
(** * Double-precision arithmetic of the initial price *)
(* ================================================================== *)

(** [Number(n)] for a bigint: the nearest double. *)
Definition Number_of_bigint (n : Z) : float :=
  SF2Prim (binary_normalize prec emax n 0 false).

(** [BigInt(Math.floor(x))]; a RangeError for NaN and the infinities. *)
Definition BigInt_floor (x : float) : option Z :=
  match Prim2SF x with
  | S754_zero _ => Some 0
  | S754_finite s m e =>
      let v := if s then Z.neg m else Z.pos m in
      Some (if 0 <=? e then v * 2 ^ e else v / 2 ^ (- e))
  | _ => None
  end.

(** [2 ** 96], a power of two and so an exact double. *)
Definition two_pow_96 : float := Number_of_bigint (2 ^ 96).

(** [const startingPrice = 1n]. *)
Definition startingPrice : Z := 1.

(** [BigInt(Math.floor(Math.sqrt(Number(startingPrice)) * 2 ** 96))]. *)
Definition sqrtPriceX96_of (price : Z) : option Z :=
  BigInt_floor (PrimFloat.mul (PrimFloat.sqrt (Number_of_bigint price)) two_pow_96).

Definition sqrtPriceX96 : option Z := sqrtPriceX96_of startingPrice.

(* ================================================================== *)
(** * The script *)
(* ================================================================== *)

(** What a run starts from: the command line, the environment and the
    content of [cache.json] as parsed at start-up. *)
Record Env := mkEnv {
  argv : list string;
  PRIVATE_KEY : option string;
  cache : Cache
}.

(** [process.argv.includes("--create")]. *)
Definition create (env : Env) : bool :=
  existsb (String.eqb "--create") (argv env).

(** The pair ordering of lines 328-331 and 363-366. *)
Definition orderPair (tokenOne tokenTwo : Token) : Token * Token :=
  if Js.lt (Js.toLowerCase (address tokenOne)) (Js.toLowerCase (address tokenTwo))
  then (tokenOne, tokenTwo)
  else (tokenTwo, tokenOne).

(** [{ ...token, tokenSupply: String(token.tokenSupply) }]. *)
Definition toCached (t : Token) : CachedToken := {|
  cached_address := address t;
  cached_tokenName := tokenName t;
  cached_tokenSymbol := tokenSymbol t;
  cached_tokenSupply := Js.String_of_bigint (tokenSupply t)
|}.

(** The condition of line 310 on the loaded token variables. *)
Definition needsBootstrap (create : bool) (tokenOne tokenTwo : option Token) : bool :=
  create
  || negb (match tokenOne with Some _ => true | None => false end)
  || negb (match tokenTwo with Some _ => true | None => false end).

Definition createPoolRequest (account : Address) (tokenOne tokenTwo : Token)
    (contracts : Contracts) : WriteRequest := {|
  w_address := FACTORY_ADDRESS contracts;
  w_functionName := "createPool";
  w_args := [ArgAddress (address tokenOne); ArgAddress (address tokenTwo);
             ArgUint pool_fee];
  w_account := account;
  w_nonce := None
|}.

Definition initializeRequest (account : Address) (tokenOne tokenTwo : Token)
    (contracts : Contracts) (sqrtPrice nonce : Z) : WriteRequest := {|
  w_address := NONFUNGIBLE_TOKEN_POSITION_MANAGER_ADDRESS contracts;
  w_functionName := "createAndInitializePoolIfNecessary";
  w_args := [ArgAddress (address tokenOne); ArgAddress (address tokenTwo);
             ArgUint pool_fee; ArgUint sqrtPrice];
  w_account := account;
  w_nonce := Some nonce
|}.

Definition approveRequest (account : Address) (token : Token) (contract : Address)
    : WriteRequest := {|
  w_address := address token;
  w_functionName := "approve";
  w_args := [ArgAddress contract; ArgUint (tokenSupply token)];
  w_account := account;
  w_nonce := None
|}.

Definition swapRequest (account tokenIn tokenOut : Address) (amountIn nonce : Z)
    : WriteRequest := {|
  w_address := SWAP_ROUTER_ADDRESS wantedContracts;
  w_functionName := "exactInputSingle";
  w_args := [ArgStruct [("tokenIn", ArgAddress tokenIn);
                        ("tokenOut", ArgAddress tokenOut);
                        ("recipient", ArgAddress account);
                        ("amountIn", ArgUint amountIn);
                        ("amountOutMinimum", ArgUint 0);
                        ("sqrtPriceLimitX96", ArgUint 0);
                        ("fee", ArgUint pool_fee)]];
  w_account := account;
  w_nonce := Some nonce
|}.

Section Script.

Variable viem : Viem.
Variable sdk : UniswapSdk.

Local Abbreviation parseEth := (parseEther (Math_round_Number viem)).

(** [const token_one_supply = parseEther("1000")], likewise for token two. *)
Definition token_one_supply : option Z := parseEth "1000".
Definition token_two_supply : option Z := parseEth "1000".

(** [saveCache(data)]: the record replaces the content of [cache.json]. *)
Definition saveCache (data : Cache) : Prog unit := await (SaveCache data).

(** Lines 124-155. *)
Definition deployToken (account : Address) (tokenName tokenSymbol : string)
    (tokenSupply : Z) : Prog Token :=
  hash <- await (DeployContract account tokenName tokenSymbol tokenSupply) ;;
  receipt <- await (WaitForTransactionReceipt hash) ;;
  match contractAddress receipt with
  | Some (String _ _ as tokenContractAddress) =>
      Ret {| address := tokenContractAddress;
             tokenName := tokenName;
             tokenSymbol := tokenSymbol;
             tokenSupply := tokenSupply |}
  | _ => Throw "Contract address is not defined"
  end.

(** Lines 180-187: the pool address out of the creation receipt. *)
Definition resolvePoolAddress (receipt : Receipt) : Outcome Address :=
  match contractAddress receipt with
  | Some (String _ _ as a) => Ok a
  | _ =>
      match logs receipt with
      | {| log_data := String _ _ as data |} :: _ =>
          match getAddress viem ("0x" ++ Js.sliceLast 40 data) with
          | Some a => Ok a
          | None => Err "InvalidAddressError"
          end
      | _ => Err "Pool address is not defined"
      end
  end.

Definition ofOutcome {A} (o : Outcome A) : Prog A :=
  match o with
  | Ok a => Ret a
  | Err m => Throw m
  end.

(** Lines 157-220. *)
Definition createPool (account : Address) (tokenOne tokenTwo : Token)
    (wantedContracts : Contracts) : Prog (Address * Hash) :=
  hash <- await (WriteContract
                   (createPoolRequest account tokenOne tokenTwo wantedContracts)) ;;
  receipt <- await (WaitForTransactionReceipt hash) ;;
  poolAddress <- ofOutcome (resolvePoolAddress receipt) ;;
  sqrtPrice <- orThrow "RangeError" sqrtPriceX96 ;;
  nonce <- await (GetTransactionCount account) ;;
  initHash <- await (WriteContract
                       (initializeRequest account tokenOne tokenTwo
                          wantedContracts sqrtPrice nonce)) ;;
  _ <- await (WaitForTransactionReceipt initHash) ;;
  Ret (poolAddress, initHash).

(** The body of the inner loop of [giveAllowances], lines 232-258. *)
Definition ensureAllowance (account : Address) (token : Token)
    (contract : Address) : Prog unit :=
  allowance <- await (ReadAllowance (address token) account contract) ;;
  if allowance =? 0 then
    hash <- await (WriteContract (approveRequest account token contract)) ;;
    _ <- await (WaitForTransactionReceipt hash) ;;
    Ret tt
  else Ret tt.

(** [for (const x of xs) { await body(x) }]. *)
Fixpoint forOf {A} (xs : list A) (body : A -> Prog unit) : Prog unit :=
  match xs with
  | [] => Ret tt
  | x :: rest => body x ;;; forOf rest body
  end.

(** Lines 222-261. *)
Definition giveAllowances (account : Address) (tokens : list Token)
    (contracts : list Address) : Prog unit :=
  forOf tokens (fun token =>
    forOf contracts (fun contract => ensureAllowance account token contract)).

(** Lines 271-286: a cached token record back as a [Token]. *)
Definition loadToken (c : option CachedToken) : Prog (option Token) :=
  match c with
  | Some ct =>
      supply <- orThrow "InvalidDecimalNumberError" (parseEth (cached_tokenSupply ct)) ;;
      Ret (Some {| address := cached_address ct;
                   tokenName := cached_tokenName ct;
                   tokenSymbol := cached_tokenSymbol ct;
                   tokenSupply := supply |})
  | None => Ret None
  end.

(** Lines 311-352: the bootstrap branch. *)
Definition bootstrap (account : Address)
    : Prog (option Token * option Token * option Address) :=
  supplyOne <- orThrow "InvalidDecimalNumberError" token_one_supply ;;
  supplyTwo <- orThrow "InvalidDecimalNumberError" token_two_supply ;;
  tokenOne <- deployToken account token_one_name token_one_symbol supplyOne ;;
  tokenTwo <- deployToken account token_two_name token_two_symbol supplyTwo ;;
  let '(tokenOne, tokenTwo) := orderPair tokenOne tokenTwo in
  newPool <- createPool account tokenOne tokenTwo wantedContracts ;;
  let poolAddress := fst newPool in
  _ <- saveCache {| cache_tokenOne := Some (toCached tokenOne);
                    cache_tokenTwo := Some (toCached tokenTwo);
                    cache_poolAddress := Some poolAddress |} ;;
  Ret (Some tokenOne, Some tokenTwo, Some poolAddress).

(** The raw input amount of line 469:
    [String(parseEther(String(parseEther("1"))))]. *)
Definition inputAmountRaw : option string :=
  match parseEth "1" with
  | Some one =>
      match parseEth (Js.String_of_bigint one) with
      | Some amount => Some (Js.String_of_bigint amount)
      | None => None
      end
  | None => None
  end.

(** Lines 419-424: the tick bounds of the position. *)
Definition tickLower (tick tickSpacing : Z) : option Z :=
  option_map (fun nearest => nearest - tickSpacing * 2)
    (nearestUsableTick sdk tick tickSpacing).

Definition tickUpper (tick tickSpacing : Z) : option Z :=
  option_map (fun nearest => nearest + tickSpacing * 2)
    (nearestUsableTick sdk tick tickSpacing).

(** Lines 463-528: quote, then swap the quoted amount. *)
Definition quoteAndSwap (account : Address) (pool : SdkPool sdk)
    (tokensIn tokensOut : SdkToken sdk) : Prog unit :=
  swapRoute <- orThrow "Route" (newRoute sdk [pool] tokensIn tokensOut) ;;
  raw <- orThrow "InvalidDecimalNumberError" inputAmountRaw ;;
  inputAmount <- orThrow "CurrencyAmount" (fromRawAmount sdk tokensIn raw) ;;
  quote <- orThrow "SwapQuoter" (quoteCallParameters sdk swapRoute inputAmount) ;;
  quoteCallReturnData <- await (CallContract (QUOTER_V2_ADDRESS wantedContracts) quote) ;;
  match quoteCallReturnData with
  | Some (String _ _ as data) =>
      amountIn <- orThrow "AbiDecodingError" (decodeUint256 viem data) ;;
      nonce <- await (GetTransactionCount account) ;;
      swapHash <- await (WriteContract
                           (swapRequest account (sdk_address sdk tokensIn)
                              (sdk_address sdk tokensOut) amountIn nonce)) ;;
      _ <- await (WaitForTransactionReceipt swapHash) ;;
      Ret tt
  | _ => Throw "Quote call return data is not defined"
  end.

(** Lines 355-461: allowances, pool state, position and mint; then the
    swap. *)
Definition provision (account : Address) (tokenOne tokenTwo : Token)
    (poolAddress : option Address) : Prog unit :=
  let tokens := [tokenOne; tokenTwo] in
  let contracts := [NONFUNGIBLE_TOKEN_POSITION_MANAGER_ADDRESS wantedContracts;
                    SWAP_ROUTER_ADDRESS wantedContracts] in
  giveAllowances account tokens contracts ;;;
  let '(tokenOne, tokenTwo) := orderPair tokenOne tokenTwo in
  state <- await (ReadPoolState poolAddress) ;;
  let tickSpacing := ps_tickSpacing state in
  let fee := ps_fee state in
  let liquidity := ps_liquidity state in
  let sqrtPriceX96 := fst (ps_slot0 state) in
  let tick := snd (ps_slot0 state) in
  TokenOneUniswapSdkCore <-
    orThrow "Token" (newToken sdk chainId (address tokenOne) 18
                       (tokenName tokenOne) (tokenSymbol tokenOne)) ;;
  TokenTwoUniswapSdkCore <-
    orThrow "Token" (newToken sdk chainId (address tokenTwo) 18
                       (tokenName tokenTwo) (tokenSymbol tokenTwo)) ;;
  pool <- orThrow "Pool" (newPool sdk TokenOneUniswapSdkCore TokenTwoUniswapSdkCore
                            fee (Js.String_of_bigint sqrtPriceX96)
                            (Js.String_of_bigint liquidity) tick) ;;
  positionLiquidity <- orThrow "InvalidDecimalNumberError" (parseEth "500") ;;
  lower <- orThrow "nearestUsableTick" (tickLower tick tickSpacing) ;;
  upper <- orThrow "nearestUsableTick" (tickUpper tick tickSpacing) ;;
  position <- orThrow "Position"
                (newPosition sdk pool (Js.String_of_bigint positionLiquidity)
                   lower upper) ;;
  now <- await DateNow ;;
  let mintOptions := {| recipient := account;
                        deadline := now / 1000 + 60 * 20;
                        slippageTolerance := (5, 10000) |} in
  '(calldata, value) <-
    orThrow "addCallParameters" (addCallParameters sdk position mintOptions) ;;
  nonce <- await (GetTransactionCount account) ;;
  value <- orThrow "SyntaxError" (Js.BigInt value) ;;
  request <- await (PrepareTransactionRequest account calldata
                      (NONFUNGIBLE_TOKEN_POSITION_MANAGER_ADDRESS wantedContracts)
                      value nonce) ;;
  serializedTransaction <- await (SignTransaction request) ;;
  mintHash <- await (SendRawTransaction serializedTransaction) ;;
  _ <- await (WaitForTransactionReceipt mintHash) ;;
  quoteAndSwap account pool TokenOneUniswapSdkCore TokenTwoUniswapSdkCore.

(** Lines 263-531. *)
Definition main (env : Env) : Prog unit :=
  match PRIVATE_KEY env with
  | Some (String _ _ as privateKey) =>
      account <- orThrow "InvalidPrivateKeyError"
                   (privateKeyToAccount viem ("0x" ++ privateKey)) ;;
      tokenOne <- loadToken (cache_tokenOne (cache env)) ;;
      tokenTwo <- loadToken (cache_tokenTwo (cache env)) ;;
      let poolAddress := cache_poolAddress (cache env) in
      ethBalance <- await (GetBalance account) ;;
      if ethBalance =? 0 then Throw "No ETH balance. Cant deploy" else
      '(tokenOne, tokenTwo, poolAddress) <-
        (if needsBootstrap (create env) tokenOne tokenTwo
         then bootstrap account
         else Ret (tokenOne, tokenTwo, poolAddress)) ;;
      match tokenOne, tokenTwo with
      | Some tokenOne, Some tokenTwo =>
          provision account tokenOne tokenTwo poolAddress
      | _, _ => Throw "TypeError"
      end
  | _ => Throw "Private key is not defined in the environment variables"
  end.

End Script.

(* ================================================================== *)
(** * Trace predicates *)
(* ================================================================== *)

(** What one pass of the inner loop body adds to the trace, for the pair
    [(token, contract)]: the allowance read, followed by an approval (and
    the wait for its receipt) exactly when the answer is zero. *)
Inductive PairTrace (account : Address) (token : Token) (contract : Address)
  : Trace -> Outcome unit -> Prop :=
| pair_read_fails m :
    PairTrace account token contract
      [Interaction (ReadAllowance (address token) account contract) (Err m)]
      (Err m)
| pair_skipped allowance :
    allowance <> 0 ->
    PairTrace account token contract
      [Interaction (ReadAllowance (address token) account contract) (Ok allowance)]
      (Ok tt)
| pair_approve_fails m :
    PairTrace account token contract
      [Interaction (ReadAllowance (address token) account contract) (Ok 0);
       Interaction (WriteContract (approveRequest account token contract)) (Err m)]
      (Err m)
| pair_wait_fails hash m :
    PairTrace account token contract
      [Interaction (ReadAllowance (address token) account contract) (Ok 0);
       Interaction (WriteContract (approveRequest account token contract)) (Ok hash);
       Interaction (WaitForTransactionReceipt hash) (Err m)]
      (Err m)
| pair_approved hash receipt :
    PairTrace account token contract
      [Interaction (ReadAllowance (address token) account contract) (Ok 0);
       Interaction (WriteContract (approveRequest account token contract)) (Ok hash);
       Interaction (WaitForTransactionReceipt hash) (Ok receipt)]
      (Ok tt).

(** The trace of the loop over a list of pairs: one [PairTrace] after the
    other, cut short by the first failure. *)
Inductive LoopTrace (account : Address)
  : list (Token * Address) -> Trace -> Outcome unit -> Prop :=
| loop_done : LoopTrace account [] [] (Ok tt)
| loop_next token contract rest seg tr o :
    PairTrace account token contract seg (Ok tt) ->
    LoopTrace account rest tr o ->
    LoopTrace account ((token, contract) :: rest) (seg ++ tr)%list o
| loop_abort token contract rest seg m :
    PairTrace account token contract seg (Err m) ->
    LoopTrace account ((token, contract) :: rest) seg (Err m).


(** The contract addresses of the receipts delivered during a run, in
    order.  In a bootstrap run the first two are the deployed tokens. *)
Definition receiptAddress (e : Entry) : list Address :=
  match e with
  | Interaction (WaitForTransactionReceipt _) (Ok receipt) =>
      match contractAddress receipt with
      | Some a => [a]
      | None => []
      end
  | _ => []
  end.

Definition receiptAddresses (tr : Trace) : list Address :=
  flat_map receiptAddress tr.

(** Two addresses in the order of [orderPair]. *)
Definition orderAddresses (a b : Address) : Address * Address :=
  if Js.lt (Js.toLowerCase a) (Js.toLowerCase b) then (a, b) else (b, a).

(** The requests of the bootstrap branch: deployments, pool creation and
    initialisation, and the cache write. *)
Definition isBootstrapEntry (e : Entry) : bool :=
  isDeploy e || isWriteTo "createPool" e
  || isWriteTo "createAndInitializePoolIfNecessary" e || isSaveCache e.

(** The request of an entry, when it is the quoter call. *)
Definition quoteAnswer (e : Entry) : option (Outcome (option Hex)) :=
  match e with
  | Interaction (CallContract _ _) r => Some r
  | _ => None
  end.

(** Target and calldata of an entry that is a read-only call. *)
Definition callRequest (e : Entry) : option (Address * Hex) :=
  match e with
  | Interaction (CallContract to data) _ => Some (to, data)
  | _ => None
  end.

(** The pool address of an entry that reads the pool state. *)
Definition poolRead (e : Entry) : option (option Address) :=
  match e with
  | Interaction (ReadPoolState pool) _ => Some pool
  | _ => None
  end.

(** The answer to the balance request. *)
Definition balanceAnswer (e : Entry) : option (Outcome Z) :=
  match e with
  | Interaction (GetBalance _) r => Some r
  | _ => None
  end.

(** Token, owner and spender of an allowance read. *)
Definition allowanceRead (e : Entry) : option (Address * Address * Address) :=
  match e with
  | Interaction (ReadAllowance token owner spender) _ => Some (token, owner, spender)
  | _ => None
  end.

(** Entries of the bootstrap branch never are quoter calls or pool reads;
    entries of the later phases never are bootstrap requests. *)
Definition preSwap (e : Entry) : Prop :=
  isCallContract e = false /\ poolRead e = None.

Definition postBootstrap (e : Entry) : Prop :=
  isBootstrapEntry e = false.

(** The first quoter call of a trace and what follows it. *)
Fixpoint afterQuote (tr : Trace) : option (Entry * Trace) :=
  match tr with
  | [] => None
  | e :: rest => if isCallContract e then Some (e, rest) else afterQuote rest
  end.

(** What follows a quote that decoded to [V]: the nonce request and, when
    it is answered, the [exactInputSingle] call with [amountIn = V]. *)
Definition SwapFollows (account : Address) (V : Z) (post : Trace) : Prop :=
  (exists m, post = [Interaction (GetTransactionCount account) (Err m)]) \/
  (exists nonce tokenIn tokenOut r rest,
     post = Interaction (GetTransactionCount account) (Ok nonce)
            :: Interaction (WriteContract
                              (swapRequest account tokenIn tokenOut V nonce)) r
            :: rest).

Definition QuoteThenSwap (viem : Viem) (account : Address) (tr : Trace) : Prop :=
  forall e post d V,
    afterQuote tr = Some (e, post) ->
    quoteAnswer e = Some (Ok (Some d)) ->
    Js.truthy (Some d) = true ->
    decodeUint256 viem d = Some V ->
    SwapFollows account V post.

(** The contract writes of the bootstrap branch: pool creation and
    initialisation, both on the two deployed addresses (the first two
    receipt addresses of the trace) in the order of [orderAddresses], the
    initialisation at the price [2^96]. *)
Definition BootWrites (tr : Trace) : Prop :=
  forall req, In (Some req) (map asWrite tr) ->
    exists a1 a2 more,
      receiptAddresses tr = a1 :: a2 :: more /\
      ((w_functionName req = "createPool" /\
        w_args req = [ArgAddress (fst (orderAddresses a1 a2));
                      ArgAddress (snd (orderAddresses a1 a2));
                      ArgUint pool_fee]) \/
       (w_functionName req = "createAndInitializePoolIfNecessary" /\
        w_args req = [ArgAddress (fst (orderAddresses a1 a2));
                      ArgAddress (snd (orderAddresses a1 a2));
                      ArgUint pool_fee; ArgUint (2 ^ 96)])).

(** Traces and outcomes of the bootstrap branch. *)
Definition BootSpec (account : Address) (tr : Trace)
    (o : Outcome (option Token * option Token * option Address)) : Prop :=
  (exists r rest,
     tr = Interaction (DeployContract account token_one_name token_one_symbol
                         (10 ^ 21)) r :: rest) /\
  BootWrites tr /\
  Forall preSwap tr /\
  (forall x, o = Ok x -> exists t1 t2 p, x = (Some t1, Some t2, Some p)).

(** Traces and outcomes of the phases after the bootstrap branch: the
    allowance loop over the two tokens and the two spenders; when it
    completes, the pool reads on [poolAddress], then mint, quote and swap. *)
Definition ProvSpec (viem : Viem) (account : Address) (tokenOne tokenTwo : Token)
    (poolAddress : option Address) (tr : Trace) (o : Outcome unit) : Prop :=
  exists trA oA,
    LoopTrace account
      (list_prod [tokenOne; tokenTwo]
         [NONFUNGIBLE_TOKEN_POSITION_MANAGER_ADDRESS wantedContracts;
          SWAP_ROUTER_ADDRESS wantedContracts]) trA oA /\
    match oA with
    | Err m => tr = trA /\ o = Err m
    | Ok _ =>
        exists r trM,
          tr = (trA ++ Interaction (ReadPoolState poolAddress) r :: trM)%list /\
          Forall postBootstrap trM /\
          Forall (fun e => poolRead e = None) trM /\
          QuoteThenSwap viem account trM
    end.

(** The account of a run: the address of the configured key, when there is
    a key and viem accepts it. *)
Definition accountOf (viem : Viem) (env : Env) : option Address :=
  match PRIVATE_KEY env with
  | Some (String _ _ as privateKey) => privateKeyToAccount viem ("0x" ++ privateKey)
  | _ => None
  end.

(** A cached token record as loaded, given its parsed supply. *)
Definition loaded (c : CachedToken) (supply : Z) : Token := {|
  address := cached_address c;
  tokenName := cached_tokenName c;
  tokenSymbol := cached_tokenSymbol c;
  tokenSupply := supply
|}.

(** Postcondition of the quote-and-swap phase. *)
Definition SwapPost (viem : Viem) (account : Address) (tr : Trace)
    (o : Outcome unit) : Prop :=
  Forall postBootstrap tr /\
  Forall (fun e => poolRead e = None) tr /\
  QuoteThenSwap viem account tr.

(** Entries of the allowance loop: neither bootstrap requests, nor quoter
    calls, nor pool reads. *)
Definition plainEntry (e : Entry) : Prop :=
  isBootstrapEntry e = false /\ isCallContract e = false /\ poolRead e = None.

(** The two spenders of the allowance step. *)
Definition spenders : list Address :=
  [NONFUNGIBLE_TOKEN_POSITION_MANAGER_ADDRESS wantedContracts;
   SWAP_ROUTER_ADDRESS wantedContracts].

(** The function names of pool creation and initialisation. *)
Definition isPoolFunction (fn : string) : bool :=
  String.eqb fn "createPool" || String.eqb fn "createAndInitializePoolIfNecessary".

(* ================================================================== *)
(** * Reference instances of the external libraries *)
(* ================================================================== *)

(** Stand-ins for the opaque libraries and for the chain, used to run the
    model on concrete inputs. *)
Module Reference.

Fixpoint all_hex (s : string) : bool :=
  match s with
  | EmptyString => true
  | String c r =>
      match Js.hex_value c with
      | Some _ => all_hex r
      | None => false
      end
  end.

(** [0x] followed by forty hexadecimal digits. *)
Definition isHexAddress (s : string) : bool :=
  match s with
  | String c0 (String c1 r) =>
      Ascii.eqb c0 "0" && Ascii.eqb c1 "x"
      && Nat.eqb (String.length r) 40 && all_hex r
  | _ => false
  end.

(** Accepts a well-formed address and returns it as it is (no checksum
    casing). *)
Definition acceptAddress (s : string) : option Address :=
  if isHexAddress s then Some s else None.

(** The first 32-byte word of the data as an unsigned integer. *)
Definition firstWord (data : Hex) : option Z :=
  match data with
  | String c0 (String c1 r) =>
      if Ascii.eqb c0 "0" && Ascii.eqb c1 "x" && Nat.leb 64 (String.length r)
      then Js.hex_digits_value 0 (substring 0 64 r)
      else None
  | _ => None
  end.

Definition viem : Viem := {|
  privateKeyToAccount := fun _ => Some "0x1111111111111111111111111111111111111111";
  getAddress := acceptAddress;
  decodeUint256 := firstWord;
  Math_round_Number := fun _ => 0
|}.

Definition MIN_TICK : Z := -887272.
Definition MAX_TICK : Z := 887272.

(** [nearestUsableTick] of the v3-sdk; [Math.round(t / s)] is
    [floor((2t + s) / 2s)] on the tick range. *)
Definition roundToSpacing (tick tickSpacing : Z) : option Z :=
  if (0 <? tickSpacing) && (MIN_TICK <=? tick) && (tick <=? MAX_TICK) then
    let rounded := (2 * tick + tickSpacing) / (2 * tickSpacing) * tickSpacing in
    if rounded <? MIN_TICK then Some (rounded + tickSpacing)
    else if MAX_TICK <? rounded then Some (rounded - tickSpacing)
    else Some rounded
  else None.

(** An SDK whose objects are plain tuples and whose encoders return fixed
    payloads. *)
Definition sdk : UniswapSdk := {|
  SdkToken := Address;
  SdkPool := Address * Address * Z;
  SdkPosition := Z * Z;
  SdkRoute := Address * Address;
  SdkAmount := string;
  newToken := fun _ a _ _ _ => Some a;
  sdk_address := fun a => a;
  newPool := fun a b fee _ _ _ => Some (a, b, fee);
  nearestUsableTick := roundToSpacing;
  newPosition := fun _ _ lower upper => Some (lower, upper);
  addCallParameters := fun _ _ => Some ("0xac9650d8", "0x00");
  newRoute := fun _ a b => Some (a, b);
  fromRawAmount := fun _ raw => Some raw;
  quoteCallParameters := fun _ _ => Some "0xc6a5026a"
|}.

Definition tokenA : Address := "0xAAAAAAAAAAAAAAAAAAAAAAAAAAAAAAAAAAAAAAAA".
Definition tokenB : Address := "0xbbbbbbbbbbbbbbbbbbbbbbbbbbbbbbbbbbbbbbbb".
Definition poolX : Address := "0x2222222222222222222222222222222222222222".

(** A chain on which every request succeeds: the first token is deployed at
    the larger address, the factory reports the pool only through its event
    log, the position manager has no allowance yet and the router has one,
    and the quoter answers 5. *)
Definition world : World := fun X hist e =>
  match e in effectE X return Outcome X with
  | GetBalance _ => Ok 1
  | DeployContract _ name _ _ => Ok ("deploy:" ++ name)%string
  | WaitForTransactionReceipt hash =>
      if String.eqb hash "deploy:Pudgy" then Ok (mkReceipt (Some tokenB) [])
      else if String.eqb hash "deploy:Penguin" then Ok (mkReceipt (Some tokenA) [])
      else if String.eqb hash "write:createPool" then
        Ok (mkReceipt None
              [mkLog ("0x000000000000000000000000000000000000000000000000000000000000000a"
                      ++ "000000000000000000000000"
                      ++ "2222222222222222222222222222222222222222")%string])
      else Ok (mkReceipt None [])
  | WriteContract req => Ok ("write:" ++ w_functionName req)%string
  | GetTransactionCount _ => Ok (Z.of_nat (List.length hist))
  | ReadAllowance _ _ spender =>
      if String.eqb spender (SWAP_ROUTER_ADDRESS wantedContracts) then Ok 7 else Ok 0
  | ReadPoolState _ => Ok (mkPoolState 10 500 0 (2 ^ 96, 7))
  | PrepareTransactionRequest account data to value nonce =>
      Ok (mkTxRequest account data to value nonce)
  | SignTransaction request => Ok ("signed:" ++ tx_data request)%string
  | SendRawTransaction _ => Ok "mint"
  | CallContract _ _ =>
      Ok (Some "0x0000000000000000000000000000000000000000000000000000000000000005")
  | DateNow => Ok 1700000000000
  | SaveCache _ => Ok tt
  end.

Definition key : option string := Some "ab".

Definition account : Address := "0x1111111111111111111111111111111111111111".




(** First run: empty cache, [--create]. *)
Definition freshEnv : Env := mkEnv ["bun"; "index.ts"; "--create"] key emptyCache.

Definition cachedA : CachedToken :=
  mkCachedToken tokenA "Penguin" "PENGUIN" "1000000000000000000000".
Definition cachedB : CachedToken :=
  mkCachedToken tokenB "Pudgy" "PUDGY" "1000000000000000000000".

(** Later run: populated cache, no flag. *)
Definition resumeEnv : Env :=
  mkEnv ["bun"; "index.ts"] key (mkCache (Some cachedA) (Some cachedB) (Some poolX)).

(** Populated token records, but no pool address. *)
Definition noPoolEnv : Env :=
  mkEnv ["bun"; "index.ts"] key (mkCache (Some cachedA) (Some cachedB) None).

End Reference.

(* ================================================================== *)
(** * Further projections of trace entries *)
(* ================================================================== *)

(** The hash a request returned when it submitted a transaction. *)
Definition submittedHash (e : Entry) : option Hash :=
  match e with
  | Interaction (DeployContract _ _ _ _) (Ok hash) => Some hash
  | Interaction (WriteContract _) (Ok hash) => Some hash
  | Interaction (SendRawTransaction _) (Ok hash) => Some hash
  | _ => None
  end.

(** The hash whose receipt an entry waits for. *)
Definition waitedHash (e : Entry) : option Hash :=
  match e with
  | Interaction (WaitForTransactionReceipt hash) _ => Some hash
  | _ => None
  end.

(** Account and nonce a request passes explicitly. *)
Definition nonceUsed (e : Entry) : option (Address * Z) :=
  match e with
  | Interaction (WriteContract req) _ =>
      option_map (fun n => (w_account req, n)) (w_nonce req)
  | Interaction (PrepareTransactionRequest account _ _ _ nonce) _ =>
      Some (account, nonce)
  | _ => None
  end.

(** Account and count of an answered transaction-count request. *)
Definition nonceAnswer (e : Entry) : option (Address * Z) :=
  match e with
  | Interaction (GetTransactionCount account) (Ok n) => Some (account, n)
  | _ => None
  end.

(** The record an entry writes to the cache file. *)
Definition savedCache (e : Entry) : option Cache :=
  match e with
  | Interaction (SaveCache data) _ => Some data
  | _ => None
  end.

(** The account asked about in a balance request. *)
Definition balanceRequest (e : Entry) : option Address :=
  match e with
  | Interaction (GetBalance account) _ => Some account
  | _ => None
  end.

(** The answered request a transaction to sign or a serialised transaction
    to send comes from, and what an entry signs or sends. *)
Definition preparedRequest (e : Entry) : option TxRequest :=
  match e with
  | Interaction (PrepareTransactionRequest _ _ _ _ _) (Ok request) => Some request
  | _ => None
  end.

Definition signedRequest (e : Entry) : option TxRequest :=
  match e with
  | Interaction (SignTransaction request) _ => Some request
  | _ => None
  end.

Definition signature (e : Entry) : option Hex :=
  match e with
  | Interaction (SignTransaction _) (Ok serialized) => Some serialized
  | _ => None
  end.

Definition sentTransaction (e : Entry) : option Hex :=
  match e with
  | Interaction (SendRawTransaction serialized) _ => Some serialized
  | _ => None
  end.

(** The same projections on the entry before, when there is one. *)
Definition before {A} (f : Entry -> option A) (prev : option Entry) : option A :=
  match prev with
  | Some e => f e
  | None => None
  end.

(* ================================================================== *)
(** * Properties of adjacent entries *)
(* ================================================================== *)

Section Chains.

(** [step prev e]: what must hold of an entry [e] given the entry before it
    ([None] at the start of a trace). *)
Variable step : option Entry -> Entry -> Prop.

(** Entries after which a phase may hand over to the next one. *)
Variable quiet : Entry -> Prop.

Fixpoint chain (prev : option Entry) (tr : Trace) : Prop :=
  match tr with
  | [] => True
  | e :: rest => step prev e /\ chain (Some e) rest
  end.

Fixpoint lastEntry (prev : option Entry) (tr : Trace) : option Entry :=
  match tr with
  | [] => prev
  | e :: rest => lastEntry (Some e) rest
  end.

Definition quietOpt (prev : option Entry) : Prop :=
  match prev with
  | Some e => quiet e
  | None => True
  end.

(** Postcondition of a phase: its trace is a chain from the start, and a
    phase that returns ends on a quiet entry. *)
Definition PhasePost {A} (tr : Trace) (o : Outcome A) : Prop :=
  chain None tr /\ (forall a, o = Ok a -> quietOpt (lastEntry None tr)).

End Chains.

(** Each receipt wait follows the submission that returned its hash, and
    each answered submission is followed by the wait for its hash. *)
Definition awaitsSubmission (prev : option Entry) (e : Entry) : Prop :=
  before submittedHash prev = waitedHash e.

Definition noPendingHash (e : Entry) : Prop := submittedHash e = None.

(** An explicit nonce is the count answered just before, for the same
    account. *)
Definition usesFreshNonce (prev : option Entry) (e : Entry) : Prop :=
  match nonceUsed e with
  | Some used => before nonceAnswer prev = Some used
  | None => True
  end.

(** What is signed is the request prepared just before; what is sent is
    the signature obtained just before. *)
Definition signsPreparedSendsSigned (prev : option Entry) (e : Entry) : Prop :=
  match signedRequest e with
  | Some request => before preparedRequest prev = Some request
  | None => True
  end /\
  match sentTransaction e with
  | Some serialized => before signature prev = Some serialized
  | None => True
  end.

Definition anyEntry (e : Entry) : Prop := True.

(** The contract writes the script knows: pool creation on the factory,
    initialisation on the position manager, approvals of the two spenders,
    and the swap on the router, all from the account of the run. *)
Definition knownWrite (account : Address) (req : WriteRequest) : Prop :=
  w_account req = account /\
  ((w_functionName req = "createPool" /\
    w_address req = FACTORY_ADDRESS wantedContracts /\ w_nonce req = None) \/
   (w_functionName req = "createAndInitializePoolIfNecessary" /\
    w_address req = NONFUNGIBLE_TOKEN_POSITION_MANAGER_ADDRESS wantedContracts) \/
   (w_functionName req = "approve" /\ w_nonce req = None /\
    exists spender amount,
      w_args req = [ArgAddress spender; ArgUint amount] /\ In spender spenders) \/
   (w_functionName req = "exactInputSingle" /\
    w_address req = SWAP_ROUTER_ADDRESS wantedContracts /\
    exists tokenIn tokenOut amountIn,
      w_args req = [ArgStruct [("tokenIn", ArgAddress tokenIn);
                               ("tokenOut", ArgAddress tokenOut);
                               ("recipient", ArgAddress account);
                               ("amountIn", ArgUint amountIn);
                               ("amountOutMinimum", ArgUint 0);
                               ("sqrtPriceLimitX96", ArgUint 0);
                               ("fee", ArgUint pool_fee)]])).

Definition onlyKnownWrites (account : Address) (prev : option Entry) (e : Entry)
    : Prop :=
  forall req, asWrite e = Some req -> knownWrite account req.

(* ================================================================== *)
(** * Traces of [deployToken] and [createPool] *)
(* ================================================================== *)

(** The interactions of one [deployToken] call and its outcome. *)
Inductive DeployTrace (account : Address) (name symbol : string) (supply : Z)
  : Trace -> Outcome Token -> Prop :=
| deploy_rejected m :
    DeployTrace account name symbol supply
      [Interaction (DeployContract account name symbol supply) (Err m)]
      (Err m)
| deploy_unconfirmed hash m :
    DeployTrace account name symbol supply
      [Interaction (DeployContract account name symbol supply) (Ok hash);
       Interaction (WaitForTransactionReceipt hash) (Err m)]
      (Err m)
| deploy_without_address hash receipt :
    Js.truthy (contractAddress receipt) = false ->
    DeployTrace account name symbol supply
      [Interaction (DeployContract account name symbol supply) (Ok hash);
       Interaction (WaitForTransactionReceipt hash) (Ok receipt)]
      (Err "Contract address is not defined")
| deploy_done hash receipt a :
    contractAddress receipt = Some a ->
    a <> EmptyString ->
    DeployTrace account name symbol supply
      [Interaction (DeployContract account name symbol supply) (Ok hash);
       Interaction (WaitForTransactionReceipt hash) (Ok receipt)]
      (Ok (mkToken a name symbol supply)).

(** The interactions of one [createPool] call and its outcome. *)
Inductive CreatePoolTrace (viem : Viem) (account : Address)
    (tokenOne tokenTwo : Token) (contracts : Contracts)
  : Trace -> Outcome (Address * Hash) -> Prop :=
| create_rejected m :
    CreatePoolTrace viem account tokenOne tokenTwo contracts
      [Interaction (WriteContract
                      (createPoolRequest account tokenOne tokenTwo contracts))
         (Err m)]
      (Err m)
| create_unconfirmed hash m :
    CreatePoolTrace viem account tokenOne tokenTwo contracts
      [Interaction (WriteContract
                      (createPoolRequest account tokenOne tokenTwo contracts))
         (Ok hash);
       Interaction (WaitForTransactionReceipt hash) (Err m)]
      (Err m)
| create_unresolved hash receipt m :
    resolvePoolAddress viem receipt = Err m ->
    CreatePoolTrace viem account tokenOne tokenTwo contracts
      [Interaction (WriteContract
                      (createPoolRequest account tokenOne tokenTwo contracts))
         (Ok hash);
       Interaction (WaitForTransactionReceipt hash) (Ok receipt)]
      (Err m)
| create_no_nonce hash receipt poolAddress m :
    resolvePoolAddress viem receipt = Ok poolAddress ->
    CreatePoolTrace viem account tokenOne tokenTwo contracts
      [Interaction (WriteContract
                      (createPoolRequest account tokenOne tokenTwo contracts))
         (Ok hash);
       Interaction (WaitForTransactionReceipt hash) (Ok receipt);
       Interaction (GetTransactionCount account) (Err m)]
      (Err m)
| create_init_rejected hash receipt poolAddress nonce m :
    resolvePoolAddress viem receipt = Ok poolAddress ->
    CreatePoolTrace viem account tokenOne tokenTwo contracts
      [Interaction (WriteContract
                      (createPoolRequest account tokenOne tokenTwo contracts))
         (Ok hash);
       Interaction (WaitForTransactionReceipt hash) (Ok receipt);
       Interaction (GetTransactionCount account) (Ok nonce);
       Interaction (WriteContract
                      (initializeRequest account tokenOne tokenTwo contracts
                         (2 ^ 96) nonce))
         (Err m)]
      (Err m)
| create_init_unconfirmed hash receipt poolAddress nonce initHash m :
    resolvePoolAddress viem receipt = Ok poolAddress ->
    CreatePoolTrace viem account tokenOne tokenTwo contracts
      [Interaction (WriteContract
                      (createPoolRequest account tokenOne tokenTwo contracts))
         (Ok hash);
       Interaction (WaitForTransactionReceipt hash) (Ok receipt);
       Interaction (GetTransactionCount account) (Ok nonce);
       Interaction (WriteContract
                      (initializeRequest account tokenOne tokenTwo contracts
                         (2 ^ 96) nonce))
         (Ok initHash);
       Interaction (WaitForTransactionReceipt initHash) (Err m)]
      (Err m)
| create_done hash receipt poolAddress nonce initHash initReceipt :
    resolvePoolAddress viem receipt = Ok poolAddress ->
    CreatePoolTrace viem account tokenOne tokenTwo contracts
      [Interaction (WriteContract
                      (createPoolRequest account tokenOne tokenTwo contracts))
         (Ok hash);
       Interaction (WaitForTransactionReceipt hash) (Ok receipt);
       Interaction (GetTransactionCount account) (Ok nonce);
       Interaction (WriteContract
                      (initializeRequest account tokenOne tokenTwo contracts
                         (2 ^ 96) nonce))
         (Ok initHash);
       Interaction (WaitForTransactionReceipt initHash) (Ok initReceipt)]
      (Ok (poolAddress, initHash)).

(* ================================================================== *)
(** * What the bootstrap branch saves *)
(* ================================================================== *)

(** The two tokens of a bootstrap, as deployed at [a1] and then [a2]. *)
Definition deployedOne (a1 : Address) : Token :=
  mkToken a1 token_one_name token_one_symbol (10 ^ 21).

Definition deployedTwo (a2 : Address) : Token :=
  mkToken a2 token_two_name token_two_symbol (10 ^ 21).

(** The record written after a bootstrap that deployed at [a1] and [a2]
    and resolved the pool address [pool]. *)
Definition bootstrapCache (a1 a2 pool : Address) : Cache := {|
  cache_tokenOne := Some (toCached (fst (orderPair (deployedOne a1) (deployedTwo a2))));
  cache_tokenTwo := Some (toCached (snd (orderPair (deployedOne a1) (deployedTwo a2))));
  cache_poolAddress := Some pool
|}.

(** Cache writes of the bootstrap branch: at most one, made of the two
    deployed tokens in pair order and of the pool address resolved from
    the receipt of the pool creation; a bootstrap that returns hands on
    exactly what it saved. *)
Definition BootCacheSpec (viem : Viem) (account : Address) (tr : Trace)
    (o : Outcome (option Token * option Token * option Address)) : Prop :=
  (List.length (filter isSaveCache tr) <= 1)%nat /\
  forall e data,
    In e tr -> savedCache e = Some data ->
    exists a1 a2 more pool hash receipt,
      receiptAddresses tr = a1 :: a2 :: more /\
      data = bootstrapCache a1 a2 pool /\
      In (Interaction
            (WriteContract
               (createPoolRequest account
                  (fst (orderPair (deployedOne a1) (deployedTwo a2)))
                  (snd (orderPair (deployedOne a1) (deployedTwo a2)))
                  wantedContracts))
            (Ok hash)) tr /\
      In (Interaction (WaitForTransactionReceipt hash) (Ok receipt)) tr /\
      resolvePoolAddress viem receipt = Ok pool /\
      (forall x, o = Ok x ->
         x = (Some (fst (orderPair (deployedOne a1) (deployedTwo a2))),
              Some (snd (orderPair (deployedOne a1) (deployedTwo a2))),
              Some pool)).

(** Allowance reads of the later phases concern the two tokens at hand. *)
Definition AllowanceTokens (account : Address) (tokenOne tokenTwo : Token)
    (poolAddress : option Address) (tr : Trace) (o : Outcome unit) : Prop :=
  forall e token owner spender,
    In e tr -> allowanceRead e = Some (token, owner, spender) ->
    owner = account /\ (token = address tokenOne \/ token = address tokenTwo).

(** A token as it comes back from the cache: [parseEther] applied to the
    rendered raw supply. *)
Definition reloaded (t : Token) : Token :=
  loaded (toCached t) (tokenSupply t * 10 ^ 18).

(** Cache writes of a run of [main]: at most one, in a run that takes the
    bootstrap branch, holding the tokens deployed at the first two receipt
    addresses and the pool address resolved from the creation receipt. *)
Definition SavedSpec (viem : Viem) (env : Env) (tr : Trace) : Prop :=
  (List.length (filter isSaveCache tr) <= 1)%nat /\
  forall e data,
    In e tr -> savedCache e = Some data ->
    (create env = true \/ cache_tokenOne (cache env) = None
       \/ cache_tokenTwo (cache env) = None) /\
    exists account a1 a2 more pool hash receipt,
      accountOf viem env = Some account /\
      receiptAddresses tr = a1 :: a2 :: more /\
      data = bootstrapCache a1 a2 pool /\
      In (Interaction
            (WriteContract
               (createPoolRequest account
                  (fst (orderPair (deployedOne a1) (deployedTwo a2)))
                  (snd (orderPair (deployedOne a1) (deployedTwo a2)))
                  wantedContracts))
            (Ok hash)) tr /\
      In (Interaction (WaitForTransactionReceipt hash) (Ok receipt)) tr /\
      resolvePoolAddress viem receipt = Ok pool.

(** The later phases of a run that wrote the cache read the allowances of
    the saved tokens and the state of the saved pool. *)
Definition UsesSaved (tr : Trace) : Prop :=
  forall e data,
    In e tr -> savedCache e = Some data ->
    exists c1 c2,
      cache_tokenOne data = Some c1 /\ cache_tokenTwo data = Some c2 /\
      (forall e' token owner spender,
         In e' tr -> allowanceRead e' = Some (token, owner, spender) ->
         token = cached_address c1 \/ token = cached_address c2) /\
      (forall e' pool,
         In e' tr -> poolRead e' = Some pool -> pool = cache_poolAddress data).

(** What an entry asked, when it is an allowance read answered with a
    nonzero allowance. *)
Definition grantedRead (e : Entry) : option (Address * Address * Address) :=
  match e with
  | Interaction (ReadAllowance token owner spender) (Ok allowance) =>
      if allowance =? 0 then None else Some (token, owner, spender)
  | _ => None
  end.

(** The allowance reads of the loop of [giveAllowances], in loop order. *)
Definition allowancePairs (account : Address) (tokens : list Token)
    (contracts : list Address) : list (option (Address * Address * Address)) :=
  map (fun p => Some (address (fst p), account, snd p)) (list_prod tokens contracts).

Module Approved.

(** The reference chain once every allowance has been granted. *)
Definition world : World := fun X hist e =>
  match e in effectE X return Outcome X with
  | ReadAllowance _ _ _ => Ok 7
  | e' => Reference.world _ hist e'
  end.

Definition tokens : list Token :=
  [mkToken Reference.tokenA "Penguin" "PENGUIN" (10 ^ 21);
   mkToken Reference.tokenB "Pudgy" "PUDGY" (10 ^ 21)].

Definition contracts : list Address :=
  [NONFUNGIBLE_TOKEN_POSITION_MANAGER_ADDRESS wantedContracts;
   SWAP_ROUTER_ADDRESS wantedContracts].

End Approved.



Example parseEther_1000 R : parseEther R "1000" = Some (10 ^ 21).
Proof. reflexivity. Qed.

Example parseEther_frac R : parseEther R "-1.5" = Some (- 15 * 10 ^ 17).
Proof. reflexivity. Qed.

Example parseEther_bad R : parseEther R "1e3" = None.
Proof. reflexivity. Qed.

Example String_of_bigint_ex : Js.String_of_bigint (10 ^ 18) = "1000000000000000000".
Proof. reflexivity. Qed.

(* ================================================================== *)
(** * Reasoning about runs *)
(* ================================================================== *)

Section WpFacts.

Context {A : Type}.

Lemma wp_mono (p : Prog A) (Q Q' : Trace -> Outcome A -> Prop) :
  (forall tr o, Q tr o -> Q' tr o) -> wp p Q -> wp p Q'.
Proof.
  revert Q Q'. induction p as [a | m | X e k IH]; intros Q Q' HQ; simpl.
  - apply HQ.
  - apply HQ.
  - intros [Herr Hok]. split.
    + intro m. apply HQ, Herr.
    + intro x. eapply IH; [| apply Hok]. intros tr o. apply HQ.
Qed.

Lemma wp_bind {B} (p : Prog A) (f : A -> Prog B) (Q : Trace -> Outcome B -> Prop) :
  wp p (fun tr o =>
          match o with
          | Ok a => wp (f a) (fun tr' o' => Q (tr ++ tr')%list o')
          | Err m => Q tr (Err m)
          end) ->
  wp (bind p f) Q.
Proof.
  revert Q. induction p as [a | m | X e k IH]; intros Q; simpl.
  - intro H. exact H.
  - intro H. exact H.
  - intros [Herr Hok]. split.
    + exact Herr.
    + intro x. apply IH. exact (Hok x).
Qed.

(** Soundness of [wp]: a run against any world, from any history, adds a
    trace that satisfies the postcondition. *)
Lemma wp_run (p : Prog A) (Q : Trace -> Outcome A -> Prop) :
  wp p Q ->
  forall (w : World) (hist : Trace),
    exists tr, fst (run w hist p) = (hist ++ tr)%list /\ Q tr (snd (run w hist p)).
Proof.
  revert Q. induction p as [a | m | X e k IH]; intros Q H w hist; simpl in *.
  - exists []. rewrite app_nil_r. auto.
  - exists []. rewrite app_nil_r. auto.
  - destruct H as [Herr Hok]. destruct (w X hist e) as [x | m].
    + destruct (IH x _ (Hok x) w (hist ++ [Interaction e (Ok x)])%list)
        as [tr [Htr HQ]].
      exists (Interaction e (Ok x) :: tr). split; [| exact HQ].
      rewrite Htr, <- app_assoc. reflexivity.
    + exists [Interaction e (Err m)]. simpl. auto.
Qed.

End WpFacts.

Lemma wp_await {X} (e : effectE X) (Q : Trace -> Outcome X -> Prop) :
  (forall m, Q [Interaction e (Err m)] (Err m)) ->
  (forall x, Q [Interaction e (Ok x)] (Ok x)) ->
  wp (await e) Q.
Proof. intros Herr Hok. simpl. split; auto. Qed.

(* ================================================================== *)
(** * The allowance loop *)
(* ================================================================== *)

Lemma LoopTrace_app account l1 l2 tr1 tr2 o :
  LoopTrace account l1 tr1 (Ok tt) -> LoopTrace account l2 tr2 o ->
  LoopTrace account (l1 ++ l2)%list (tr1 ++ tr2)%list o.
Proof.
  intros H1 H2. remember (Ok tt) as ok eqn:Eok.
  induction H1 as [| t c rest seg tr o1 Hseg Hrest IH | t c rest seg m Hseg]; simpl.
  - exact H2.
  - rewrite <- app_assoc. apply loop_next; auto.
  - discriminate.
Qed.

Lemma LoopTrace_abort_app account l1 l2 tr m :
  LoopTrace account l1 tr (Err m) -> LoopTrace account (l1 ++ l2)%list tr (Err m).
Proof.
  intros H1. remember (Err m) as err eqn:Eerr.
  induction H1 as [| t c rest seg tr o1 Hseg Hrest IH | t c rest seg m' Hseg]; simpl.
  - discriminate.
  - apply loop_next; auto.
  - apply loop_abort. exact Hseg.
Qed.

Lemma wp_ensureAllowance account token contract :
  wp (ensureAllowance account token contract) (PairTrace account token contract).
Proof.
  unfold ensureAllowance. simpl. split.
  - intro m. constructor.
  - intro allowance. destruct (Z.eqb_spec allowance 0) as [-> | Hnz]; simpl.
    + split; [intro m; constructor |].
      intro hash. split; [intro m; constructor | intro r; constructor].
    + constructor. exact Hnz.
Qed.

Lemma wp_inner_loop account token contracts :
  wp (forOf contracts (fun contract => ensureAllowance account token contract))
     (LoopTrace account (map (pair token) contracts)).
Proof.
  induction contracts as [| c rest IH]; cbn [forOf map].
  - constructor.
  - apply wp_bind. eapply wp_mono; [| apply wp_ensureAllowance].
    intros seg [[] | m] Hseg.
    + eapply wp_mono; [| exact IH]. intros tr o Htr.
      apply loop_next; assumption.
    + apply loop_abort. exact Hseg.
Qed.

Lemma wp_giveAllowances account tokens contracts :
  wp (giveAllowances account tokens contracts)
     (LoopTrace account (list_prod tokens contracts)).
Proof.
  unfold giveAllowances.
  induction tokens as [| t rest IH]; cbn [forOf list_prod].
  - constructor.
  - apply wp_bind. eapply wp_mono; [| apply wp_inner_loop].
    intros tr1 [[] | m] H1.
    + eapply wp_mono; [| exact IH]. intros tr2 o H2.
      apply LoopTrace_app; assumption.
    + apply LoopTrace_abort_app. exact H1.
Qed.


(* ================================================================== *)
(** * Decimal rendering and [parseEther] *)
(* ================================================================== *)

Module JsFacts.
Import Js.

Lemma append_assoc (a b c : string) : ((a ++ b) ++ c = a ++ (b ++ c))%string.
Proof. induction a as [| x a IH]; simpl; [reflexivity | now rewrite IH]. Qed.

Lemma append_nil_r (a : string) : (a ++ "" = a)%string.
Proof. induction a as [| x a IH]; simpl; [reflexivity | now rewrite IH]. Qed.

Lemma length_append (a b : string) :
  String.length (a ++ b) = (String.length a + String.length b)%nat.
Proof. induction a as [| x a IH]; simpl; [reflexivity | now rewrite IH]. Qed.

Lemma substring_all (s : string) : substring 0 (String.length s) s = s.
Proof. induction s as [| c s IH]; simpl; [reflexivity | now rewrite IH]. Qed.

Lemma digit_char_ok (d : Z) :
  0 <= d < 10 -> is_digit (digit_char d) = true /\ digit_value (digit_char d) = d.
Proof.
  intro H.
  assert (E : d = 0 \/ d = 1 \/ d = 2 \/ d = 3 \/ d = 4 \/ d = 5 \/ d = 6 \/
              d = 7 \/ d = 8 \/ d = 9) by lia.
  repeat (destruct E as [-> | E]; [split; reflexivity |]).
  subst d. split; reflexivity.
Qed.

Lemma digit_not_minus (c : ascii) : is_digit c = true -> Ascii.eqb c "-" = false.
Proof.
  intro H. destruct (Ascii.eqb_spec c "-") as [-> |]; [discriminate | reflexivity].
Qed.

Lemma digit_not_plus (c : ascii) : is_digit c = true -> Ascii.eqb c "+" = false.
Proof.
  intro H. destruct (Ascii.eqb_spec c "+") as [-> |]; [discriminate | reflexivity].
Qed.

Lemma digit_not_dot (c : ascii) : is_digit c = true -> Ascii.eqb c "." = false.
Proof.
  intro H. destruct (Ascii.eqb_spec c ".") as [-> |]; [discriminate | reflexivity].
Qed.

Lemma all_digits_app (a b : string) :
  all_digits (a ++ b) = all_digits a && all_digits b.
Proof.
  induction a as [| c a IH]; simpl; [reflexivity |].
  rewrite IH. apply andb_assoc.
Qed.

Lemma digits_value_app (a b : string) (acc : Z) :
  digits_value acc (a ++ b) =
  match digits_value acc a with
  | Some v => digits_value v b
  | None => None
  end.
Proof.
  revert acc. induction a as [| c a IH]; intro acc; simpl; [reflexivity |].
  destruct (is_digit c); [apply IH | reflexivity].
Qed.

Lemma digits_value_zeros (k : nat) (v : Z) :
  digits_value v (repeat0 k) = Some (v * 10 ^ Z.of_nat k).
Proof.
  revert v. induction k as [| k IH]; intro v.
  - simpl. f_equal. lia.
  - cbn [repeat0 digits_value]. change (is_digit "0") with true. cbv iota.
    rewrite IH. f_equal. change (digit_value "0") with 0.
    rewrite Nat2Z.inj_succ, Z.pow_succ_r by lia. ring.
Qed.

Lemma digits_of_S (f : nat) (n : Z) (acc : string) :
  digits_of (S f) n acc =
  if n / 10 =? 0 then String (digit_char (n mod 10)) acc
  else digits_of f (n / 10) (String (digit_char (n mod 10)) acc).
Proof. reflexivity. Qed.

(** The digits produced for [n]: a non-empty run of digit characters that
    reads back as [n]. *)
Lemma digits_of_spec (f : nat) :
  forall (n : Z) (acc : string),
    0 <= n < 10 ^ Z.of_nat (S f) ->
    exists d c r,
      digits_of (S f) n acc = (d ++ acc)%string /\
      d = String c r /\
      all_digits d = true /\
      forall a, digits_value a d = Some (a * 10 ^ Z.of_nat (String.length d) + n).
Proof.
  assert (single : forall n acc, 0 <= n -> n / 10 = 0 ->
    exists d c r,
      String (digit_char (n mod 10)) acc = (d ++ acc)%string /\
      d = String c r /\
      all_digits d = true /\
      forall a, digits_value a d = Some (a * 10 ^ Z.of_nat (String.length d) + n)).
  { intros n acc Hn Hq.
    destruct (digit_char_ok (n mod 10)) as [Hdig Hval];
      [apply Z.mod_pos_bound; lia |].
    assert (Hd : n mod 10 = n) by (rewrite (Z.div_mod n 10) at 2; lia).
    exists (String (digit_char (n mod 10)) ""), (digit_char (n mod 10)), "".
    repeat split.
    - simpl. now rewrite Hdig.
    - intro a. simpl String.length. change (10 ^ Z.of_nat 1) with 10.
      cbn [digits_value]. rewrite Hdig, Hval, Hd. f_equal. lia. }
  induction f as [| f IH]; intros n acc Hn;
    rewrite digits_of_S; destruct (Z.eqb_spec (n / 10) 0) as [Hq | Hq];
    try (apply single; lia).
  - exfalso. apply Hq. apply Z.div_small.
    change (10 ^ Z.of_nat 1) with 10 in Hn. lia.
  - destruct (digit_char_ok (n mod 10)) as [Hdig Hval];
      [apply Z.mod_pos_bound; lia |].
    assert (Hn' : 0 <= n / 10 < 10 ^ Z.of_nat (S f)).
    { split; [apply Z.div_pos; lia |].
      apply Z.div_lt_upper_bound; [lia |].
      rewrite <- Z.pow_succ_r by lia. rewrite <- Nat2Z.inj_succ. lia. }
    destruct (IH (n / 10) (String (digit_char (n mod 10)) acc) Hn')
      as (d & c & r & Hrun & Hshape & Hall & Hvalue).
    exists (d ++ String (digit_char (n mod 10)) "")%string, c,
           (r ++ String (digit_char (n mod 10)) "")%string.
    repeat split.
    + rewrite Hrun, append_assoc. reflexivity.
    + rewrite Hshape. reflexivity.
    + rewrite all_digits_app, Hall. simpl. now rewrite Hdig.
    + intro a. rewrite digits_value_app, Hvalue. cbn [digits_value].
      rewrite Hdig, Hval. f_equal.
      rewrite length_append. simpl String.length.
      rewrite Nat2Z.inj_add. change (Z.of_nat 1) with 1.
      rewrite Z.pow_add_r by lia. change (10 ^ 1) with 10.
      rewrite (Z.div_mod n 10) at 3 by lia. ring.
Qed.

Lemma fuel_enough (n : Z) : 0 <= n -> 0 <= n < 10 ^ Z.of_nat (S (Z.to_nat (Z.log2 n))).
Proof.
  intro Hn. split; [exact Hn |].
  rewrite Nat2Z.inj_succ, Z2Nat.id by apply Z.log2_nonneg.
  destruct (Z.eq_dec n 0) as [-> | Hnz].
  - reflexivity.
  - apply Z.lt_le_trans with (2 ^ Z.succ (Z.log2 n)).
    + apply Z.log2_spec. lia.
    + apply Z.pow_le_mono_l. pose proof (Z.log2_nonneg n). lia.
Qed.

Lemma drop_digits_all (d : string) : all_digits d = true -> drop_digits d = "".
Proof.
  induction d as [| c d IH]; simpl; [reflexivity |].
  destruct (is_digit c); [exact IH | discriminate].
Qed.

Lemma split_dot_digits (d : string) : all_digits d = true -> split_dot d = [d].
Proof.
  induction d as [| c d IH]; simpl; [reflexivity |].
  destruct (is_digit c) eqn:Hc; [| discriminate]. intro Hd.
  rewrite (digit_not_dot c Hc), (IH Hd). reflexivity.
Qed.

Lemma String_of_bigint_nonneg (n : Z) :
  0 <= n ->
  exists c r, String_of_bigint n = String c r /\
              all_digits (String c r) = true /\
              forall a, digits_value a (String c r) =
                        Some (a * 10 ^ Z.of_nat (String.length (String c r)) + n).
Proof.
  intro Hn. unfold String_of_bigint.
  destruct (Z.ltb_spec n 0) as [Hneg | _]; [lia |].
  destruct (digits_of_spec _ n "" (fuel_enough n Hn))
    as (d & c & r & Hrun & Hshape & Hall & Hvalue).
  rewrite append_nil_r in Hrun. rewrite Hrun. clear Hrun.
  rewrite Hshape in *. exists c, r. auto.
Qed.

Lemma String_of_bigint_neg (n : Z) :
  n < 0 -> String_of_bigint n = String "-" (String_of_bigint (- n)).
Proof.
  intro Hn. unfold String_of_bigint.
  destruct (Z.ltb_spec n 0) as [_ | Hpos]; [| lia].
  destruct (Z.ltb_spec (- n) 0) as [Hneg | _]; [lia | reflexivity].
Qed.

End JsFacts.

Section ParseEtherFacts.
Import Js JsFacts.

Variable R : string -> Z.

(** [parseEther] on a run of digits, with or without a minus sign in
    front: eighteen zeros are appended. *)
Lemma parseEther_digits (negative : bool) (c : ascii) (r : string) :
  all_digits (String c r) = true ->
  parseEther R ((if negative then "-" else "") ++ String c r) =
  option_map (fun v => if negative then - v else v)
    (digits_value 0 (String c r ++ repeat0 18)).
Proof.
  intro Hall.
  assert (Hc : is_digit c = true) by (simpl in Hall; now destruct (is_digit c)).
  pose proof (digit_not_minus c Hc) as Hminus.
  pose proof (digit_not_plus c Hc) as Hplus.
  pose proof (digit_not_dot c Hc) as Hdot.
  unfold parseEther.
  assert (Hre : decimal_regex ((if negative then "-" else "") ++ String c r) = true).
  { unfold decimal_regex. destruct negative; cbn [append].
    - change (Ascii.eqb "-" "-") with true. cbv iota.
      rewrite (drop_digits_all _ Hall). reflexivity.
    - rewrite Hminus. rewrite (drop_digits_all _ Hall). reflexivity. }
  rewrite Hre. cbn [negb].
  assert (Hsplit : split_dot ((if negative then "-" else "") ++ String c r) =
                   [((if negative then "-" else "") ++ String c r)%string]).
  { destruct negative; cbn [append].
    - change (split_dot (String "-" (String c r)))
        with (match split_dot (String c r) with
              | p :: ps => String "-" p :: ps
              | [] => [String "-" EmptyString]
              end).
      rewrite (split_dot_digits _ Hall). reflexivity.
    - apply (split_dot_digits _ Hall). }
  rewrite Hsplit. cbn [hd tl].
  change (trimTrailingZeros "0") with "". cbn [String.length Nat.ltb Nat.leb].
  change (padEnd0 "" 18) with (repeat0 18).
  destruct negative; cbn [append].
  - change (startsWithMinus (String "-" (String c r))) with true. cbv iota.
    unfold sliceFrom. cbn [String.length Nat.sub substring].
    rewrite substring_all. cbn [append].
    unfold BigInt_dec. change (Ascii.eqb "-" "-") with true. cbv iota.
    reflexivity.
  - unfold startsWithMinus. rewrite Hminus. cbn [append].
    unfold BigInt_dec.
    destruct (r ++ repeat0 18)%string as [| c' r'] eqn:Hr.
    + destruct r; discriminate.
    + rewrite Hminus, Hplus.
      destruct (digits_value 0 (String c (String c' r'))); reflexivity.
Qed.

(** Rendering a bigint and parsing it back as ether multiplies it by
    [10^18]. *)
Lemma parseEther_String_of_bigint (n : Z) :
  parseEther R (String_of_bigint n) = Some (n * 10 ^ 18).
Proof.
  destruct (Z.lt_ge_cases n 0) as [Hneg | Hpos].
  - rewrite (String_of_bigint_neg n Hneg).
    destruct (String_of_bigint_nonneg (- n)) as (c & r & Hs & Hall & Hval); [lia |].
    rewrite Hs.
    etransitivity; [exact (parseEther_digits true c r Hall) |].
    rewrite digits_value_app, Hval, digits_value_zeros. cbn [option_map].
    apply f_equal. change (Z.of_nat 18) with 18. ring.
  - destruct (String_of_bigint_nonneg n Hpos) as (c & r & Hs & Hall & Hval).
    rewrite Hs.
    etransitivity; [exact (parseEther_digits false c r Hall) |].
    rewrite digits_value_app, Hval, digits_value_zeros. cbn [option_map].
    apply f_equal. change (Z.of_nat 18) with 18. ring.
Qed.

End ParseEtherFacts.

(* ================================================================== *)
(** * The cache round trip *)
(* ================================================================== *)

Lemma BigInt_dec_String_of_bigint (n : Z) :
  Js.BigInt_dec (Js.String_of_bigint n) = Some n.
Proof.
  destruct (Z.lt_ge_cases n 0) as [Hneg | Hpos].
  - rewrite (JsFacts.String_of_bigint_neg n Hneg).
    destruct (JsFacts.String_of_bigint_nonneg (- n)) as (c & r & Hs & Hall & Hval); [lia |].
    rewrite Hs. unfold Js.BigInt_dec.
    change (Ascii.eqb "-" "-") with true. cbv iota.
    rewrite Hval. cbn [option_map]. apply f_equal. lia.
  - destruct (JsFacts.String_of_bigint_nonneg n Hpos) as (c & r & Hs & Hall & Hval).
    rewrite Hs. unfold Js.BigInt_dec.
    assert (Hc : Js.is_digit c = true)
      by (simpl in Hall; now destruct (Js.is_digit c)).
    rewrite (JsFacts.digit_not_minus c Hc), (JsFacts.digit_not_plus c Hc).
    destruct r; rewrite Hval; apply f_equal; lia.
Qed.

(** C4. A token record is written to the cache with [tokenSupply] rendered
    as the decimal string of the raw supply (it reads back as that bigint),
    and loading the record applies [parseEther] to the string: the token
    that comes back has the other fields unchanged and a [tokenSupply] of
    the saved supply times [10^18], which differs from the saved supply
    unless that is zero. *)
Theorem cache_round_trip_scales_supply :
  forall (viem : Viem) (t : Token),
    cached_tokenSupply (toCached t) = Js.String_of_bigint (tokenSupply t) /\
    Js.BigInt_dec (cached_tokenSupply (toCached t)) = Some (tokenSupply t) /\
    loadToken viem (Some (toCached t)) =
      Ret (Some {| address := address t;
                   tokenName := tokenName t;
                   tokenSymbol := tokenSymbol t;
                   tokenSupply := tokenSupply t * 10 ^ 18 |}) /\
    (tokenSupply t <> 0 -> tokenSupply t * 10 ^ 18 <> tokenSupply t).
Proof.
  intros viem t. repeat split.
  - apply BigInt_dec_String_of_bigint.
  - unfold loadToken. cbn [toCached cached_tokenSupply cached_address
                           cached_tokenName cached_tokenSymbol].
    rewrite parseEther_String_of_bigint. reflexivity.
  - intros Hnz Heq. lia.
Qed.

Lemma cache_round_trip_witness :
  tokenSupply (mkToken Reference.tokenA "Penguin" "PENGUIN" (10 ^ 21)) <> 0 /\
  tokenSupply (mkToken Reference.tokenA "Penguin" "PENGUIN" (10 ^ 21)) * 10 ^ 18 <>
  tokenSupply (mkToken Reference.tokenA "Penguin" "PENGUIN" (10 ^ 21)).
Proof.
  assert (H : tokenSupply (mkToken Reference.tokenA "Penguin" "PENGUIN" (10 ^ 21)) <> 0)
    by (simpl; lia).
  split; [exact H |].
  exact (proj2 (proj2 (proj2
           (cache_round_trip_scales_supply Reference.viem
              (mkToken Reference.tokenA "Penguin" "PENGUIN" (10 ^ 21))))) H).
Defined.

(* ================================================================== *)
(** * Constants of the script *)
(* ================================================================== *)

Lemma inputAmountRaw_value (viem : Viem) :
  inputAmountRaw viem = Some (Js.String_of_bigint (10 ^ 36)).
Proof. reflexivity. Qed.

(* ================================================================== *)
(** * The initial price *)
(* ================================================================== *)

Lemma sqrtPriceX96_value : sqrtPriceX96 = Some (2 ^ 96).
Proof. vm_compute. reflexivity. Qed.

(* ================================================================== *)
(** * Pool address resolution *)
(* ================================================================== *)

Lemma substring_skip (pre x : string) (n : nat) :
  substring (String.length pre) n (pre ++ x) = substring 0 n x.
Proof. induction pre as [| c pre IH]; simpl; [reflexivity | exact IH]. Qed.

(** The last forty characters of data that ends in the forty characters
    [x]. *)
Lemma sliceLast_suffix (pre x : string) :
  String.length x = 40%nat -> Js.sliceLast 40 (pre ++ x) = x.
Proof.
  intro Hx. unfold Js.sliceLast, Js.sliceFrom.
  rewrite JsFacts.length_append, Hx.
  replace (String.length pre + 40 - 40)%nat with (String.length pre) by lia.
  replace (String.length pre + 40 - String.length pre)%nat with 40%nat by lia.
  rewrite substring_skip, <- Hx. apply JsFacts.substring_all.
Qed.

Lemma append_nonempty (pre x : string) :
  String.length x = 40%nat -> exists c r, (pre ++ x)%string = String c r.
Proof.
  intro Hx. destruct pre as [| c pre]; simpl.
  - destruct x as [| c r]; [discriminate | eauto].
  - eauto.
Qed.

(** C6. Pool-address resolution on the creation receipt.  (1) A receipt
    with a contract address yields that address.  (2) Without one, when the
    data of the first log ends in the forty hex characters [x] (twenty
    bytes), the result is what [getAddress] makes of ["0x" ++ x]: that
    address in checksum form, hence ["0x" ++ x] itself when it already is
    in checksum form.  (3) Without a contract address and without first-log
    data, resolution fails with "Pool address is not defined". *)
Theorem resolvePoolAddress_cases :
  forall (viem : Viem) (receipt : Receipt),
    (forall c r, contractAddress receipt = Some (String c r) ->
       resolvePoolAddress viem receipt = Ok (String c r)) /\
    (forall pre x rest,
       Js.truthy (contractAddress receipt) = false ->
       logs receipt = mkLog (pre ++ x) :: rest ->
       String.length x = 40%nat ->
       (forall a, getAddress viem ("0x" ++ x) = Some a ->
          resolvePoolAddress viem receipt = Ok a) /\
       (getAddress viem ("0x" ++ x) = Some ("0x" ++ x)%string ->
          resolvePoolAddress viem receipt = Ok ("0x" ++ x)%string)) /\
    (Js.truthy (contractAddress receipt) = false ->
     (logs receipt = [] \/ exists rest, logs receipt = mkLog "" :: rest) ->
     resolvePoolAddress viem receipt = Err "Pool address is not defined").
Proof.
  intros viem receipt. split; [| split].
  - intros c r H. unfold resolvePoolAddress. rewrite H. reflexivity.
  - intros pre x rest Hno Hlogs Hx.
    assert (Hres : resolvePoolAddress viem receipt =
                   match getAddress viem ("0x" ++ x) with
                   | Some a => Ok a
                   | None => Err "InvalidAddressError"
                   end).
    { unfold resolvePoolAddress. rewrite Hlogs.
      destruct (append_nonempty pre x Hx) as (c & r & Hdata).
      pose proof (sliceLast_suffix pre x Hx) as Hslice.
      rewrite Hdata in *. rewrite Hslice.
      destruct (contractAddress receipt) as [[| c' r'] |];
        [reflexivity | discriminate Hno | reflexivity]. }
    split.
    + intros a Ha. rewrite Hres, Ha. reflexivity.
    + intros Ha. rewrite Hres, Ha. reflexivity.
  - intros Hno Hlogs. unfold resolvePoolAddress.
    destruct (contractAddress receipt) as [[| c' r'] |];
      try discriminate Hno;
      destruct Hlogs as [-> | [rest ->]]; reflexivity.
Qed.

Lemma resolvePoolAddress_witness :
  resolvePoolAddress Reference.viem
    (mkReceipt (Some Reference.poolX) []) = Ok Reference.poolX /\
  resolvePoolAddress Reference.viem
    (mkReceipt None
       [mkLog ("0x000000000000000000000000" ++ "2222222222222222222222222222222222222222")])
    = Ok Reference.poolX /\
  resolvePoolAddress Reference.viem (mkReceipt None [])
    = Err "Pool address is not defined".
Proof.
  split; [| split].
  - apply (proj1 (resolvePoolAddress_cases Reference.viem
                    (mkReceipt (Some Reference.poolX) []))).
    reflexivity.
  - apply (proj2 (proj1 (proj2 (resolvePoolAddress_cases Reference.viem
                    (mkReceipt None
                       [mkLog ("0x000000000000000000000000"
                               ++ "2222222222222222222222222222222222222222")])))
                    "0x000000000000000000000000"
                    "2222222222222222222222222222222222222222" []
                    eq_refl eq_refl eq_refl)).
    reflexivity.
  - apply (proj2 (proj2 (resolvePoolAddress_cases Reference.viem (mkReceipt None [])))).
    + reflexivity.
    + left. reflexivity.
Defined.

(** Non-empty first-log data of fewer than twenty bytes is handed to
    [getAddress] all the same, which rejects it. *)
Example resolvePoolAddress_short_data :
  resolvePoolAddress Reference.viem (mkReceipt None [mkLog "0x"])
  = Err "InvalidAddressError".
Proof. reflexivity. Qed.

(* ================================================================== *)
(** * The tick range of the position *)
(* ================================================================== *)

(** C7. For tick spacing [s] and live tick [t], when [nearestUsableTick]
    returns a multiple of [s], the bounds computed for the position satisfy
    [tickUpper - tickLower = 4 * s] and both are multiples of [s]. *)
Theorem tick_range_symmetric :
  forall (sdk : UniswapSdk) (t s nearest : Z),
    nearestUsableTick sdk t s = Some nearest ->
    (s | nearest) ->
    exists lower upper,
      tickLower sdk t s = Some lower /\
      tickUpper sdk t s = Some upper /\
      upper - lower = 4 * s /\
      (s | lower) /\ (s | upper).
Proof.
  intros sdk t s nearest Hn Hdiv.
  exists (nearest - s * 2), (nearest + s * 2).
  unfold tickLower, tickUpper. rewrite Hn. cbn [option_map].
  repeat split.
  - ring.
  - apply Z.divide_sub_r; [exact Hdiv |]. exists 2. ring.
  - apply Z.divide_add_r; [exact Hdiv |]. exists 2. ring.
Qed.

Lemma tick_range_witness :
  exists lower upper,
    tickLower Reference.sdk 7 10 = Some lower /\
    tickUpper Reference.sdk 7 10 = Some upper /\
    upper - lower = 4 * 10 /\
    (10 | lower) /\ (10 | upper).
Proof.
  apply (tick_range_symmetric Reference.sdk 7 10 10).
  - reflexivity.
  - exists 1. reflexivity.
Defined.

(* ================================================================== *)
(** * Symbolic execution of the script *)
(* ================================================================== *)

Local Open Scope list_scope.

(** One step of symbolic execution: unfold the monadic operations and case
    on whatever blocks the program. *)
Ltac case_blocked p :=
  lazymatch p with
  | bind ?q _ => case_blocked q
  | orThrow _ ?o => destruct o eqn:?
  | ofOutcome ?o => destruct o eqn:?
  | match ?x with _ => _ end => destruct x eqn:?
  end.

Ltac wp_step :=
  cbn [wp bind await orThrow ofOutcome];
  lazymatch goal with
  | |- _ /\ _ => split
  | |- forall _, _ => intro
  | |- wp ?p _ => case_blocked p
  end.

Ltac wp_exec := repeat wp_step; cbn [wp bind await orThrow ofOutcome].

Lemma token_one_supply_value (viem : Viem) : token_one_supply viem = Some (10 ^ 21).
Proof. reflexivity. Qed.

Lemma token_two_supply_value (viem : Viem) : token_two_supply viem = Some (10 ^ 21).
Proof. reflexivity. Qed.

(** Discharges [QuoteThenSwap] on an explicit trace. *)
Ltac quote_then_swap :=
  let e := fresh "e" in
  let post := fresh "post" in
  let d := fresh "d" in
  let V := fresh "V" in
  let Hafter := fresh "Hafter" in
  let Hq := fresh "Hq" in
  let Ht := fresh "Ht" in
  let Hdec := fresh "Hdec" in
  intros e post d V Hafter Hq Ht Hdec;
  cbn in Hafter;
  first
    [ discriminate Hafter
    | injection Hafter as <- <-; cbn in Hq;
      first
        [ discriminate Hq
        | injection Hq as Hq; subst;
          first
            [ discriminate Ht
            | congruence
            | left; eexists; reflexivity
            | right; repeat eexists; repeat f_equal; congruence ] ] ].

Section ScriptFacts.

Variable viem : Viem.
Variable sdk : UniswapSdk.

Local Abbreviation SwapPost := (SwapPost viem).

Lemma wp_quoteAndSwap account pool tokensIn tokensOut :
  wp (quoteAndSwap viem sdk account pool tokensIn tokensOut) (SwapPost account).
Proof.
  unfold quoteAndSwap. rewrite inputAmountRaw_value.
  wp_exec; unfold SwapPost;
    (split; [repeat constructor | split; [repeat constructor |]]);
    try quote_then_swap.
Qed.

Lemma QuoteThenSwap_nil account : QuoteThenSwap viem account [].
Proof. intros e post d V H. discriminate H. Qed.

Lemma QuoteThenSwap_cons account e tr :
  isCallContract e = false ->
  QuoteThenSwap viem account tr -> QuoteThenSwap viem account (e :: tr).
Proof.
  intros He Htr e' post d V Hafter. cbn [afterQuote] in Hafter.
  rewrite He in Hafter. exact (Htr e' post d V Hafter).
Qed.

Lemma SwapPost_cons account e tr o :
  isBootstrapEntry e = false -> poolRead e = None -> isCallContract e = false ->
  SwapPost account tr o -> SwapPost account (e :: tr) o.
Proof.
  intros Hb Hp Hc (H1 & H2 & H3). split; [| split].
  - constructor; assumption.
  - constructor; assumption.
  - apply QuoteThenSwap_cons; assumption.
Qed.

Lemma SwapPost_nil account o : SwapPost account [] o.
Proof. split; [constructor | split; [constructor | apply QuoteThenSwap_nil]]. Qed.

(** The mint phase and the swap: everything after the pool reads. *)
Ltac swap_post :=
  repeat (apply SwapPost_cons; [reflexivity | reflexivity | reflexivity |]);
  try apply SwapPost_nil.

Lemma wp_provision account tokenOne tokenTwo poolAddress :
  wp (provision viem sdk account tokenOne tokenTwo poolAddress)
     (ProvSpec viem account tokenOne tokenTwo poolAddress).
Proof.
  unfold provision. apply wp_bind.
  eapply wp_mono; [| apply wp_giveAllowances].
  intros trA [[] | m] Hloop.
  - destruct (orderPair tokenOne tokenTwo) as [t1 t2].
    assert (Hpost : forall r trM o,
               SwapPost account trM o ->
               ProvSpec viem account tokenOne tokenTwo poolAddress
                 (trA ++ Interaction (ReadPoolState poolAddress) r :: trM)%list o).
    { intros r trM o (H1 & H2 & H3). exists trA, (Ok tt). split; [exact Hloop |].
      exists r, trM. auto. }
    wp_exec; try (apply Hpost; swap_post).
    eapply wp_mono; [| apply wp_quoteAndSwap].
    intros tr o Hswap. apply Hpost. swap_post. exact Hswap.
  - exists trA, (Err m). split; [exact Hloop |]. split; reflexivity.
Qed.

Lemma orderPair_addresses (x y t1 t2 : Token) :
  orderPair x y = (t1, t2) ->
  address t1 = fst (orderAddresses (address x) (address y)) /\
  address t2 = snd (orderAddresses (address x) (address y)).
Proof.
  unfold orderPair, orderAddresses.
  destruct (Js.lt _ _); intro H; injection H as <- <-; split; reflexivity.
Qed.

Lemma wp_bootstrap account : wp (bootstrap viem account) (BootSpec account).
Proof.
  unfold bootstrap. rewrite token_one_supply_value, token_two_supply_value.
  unfold deployToken, createPool, saveCache. rewrite sqrtPriceX96_value.
  wp_exec.
  all: unfold BootSpec.
  all: (split; [eexists; eexists; reflexivity |]).
  all: (split; [| split; [repeat constructor |]]).
  all: try (intros out Hout;
            first [discriminate Hout | injection Hout as <-; repeat eexists]).
  all: intros req Hin; cbn [map asWrite In] in Hin.
  all: repeat (destruct Hin as [Hin | Hin]; try discriminate Hin).
  all: try contradiction.
  all: injection Hin as <-.
  all: destruct (orderPair_addresses _ _ _ _ Heqp) as [E1 E2]; cbn [address] in E1, E2.
  all: eexists; eexists; eexists.
  all: (split;
        [unfold receiptAddresses; cbn [flat_map receiptAddress app];
         rewrite Heqo, Heqo0; cbn [app]; reflexivity |]).
  all: first
         [ left; split; [reflexivity |];
           cbn [w_args createPoolRequest]; rewrite E1, E2; reflexivity
         | right; split; [reflexivity |];
           cbn [w_args initializeRequest]; rewrite E1, E2; reflexivity ].
Qed.

(** The runs of [main], by cases: it stops before any request; or at the
    balance request; or it resumes from the cache; or it bootstraps. *)
Lemma wp_main (env : Env) (Q : Trace -> Outcome unit -> Prop) :
  (forall m, Q [] (Err m)) ->
  (forall account r m,
     accountOf viem env = Some account ->
     r = Err m \/ (r = Ok 0 /\ m = "No ETH balance. Cant deploy") ->
     Q [Interaction (GetBalance account) r] (Err m)) ->
  (forall account b c1 c2 s1 s2 trP o,
     accountOf viem env = Some account ->
     b <> 0 ->
     create env = false ->
     cache_tokenOne (cache env) = Some c1 ->
     cache_tokenTwo (cache env) = Some c2 ->
     parseEther (Math_round_Number viem) (cached_tokenSupply c1) = Some s1 ->
     parseEther (Math_round_Number viem) (cached_tokenSupply c2) = Some s2 ->
     ProvSpec viem account (loaded c1 s1) (loaded c2 s2)
       (cache_poolAddress (cache env)) trP o ->
     Q (Interaction (GetBalance account) (Ok b) :: trP) o) ->
  (forall account b trB oB,
     accountOf viem env = Some account ->
     b <> 0 ->
     create env = true \/ cache_tokenOne (cache env) = None
       \/ cache_tokenTwo (cache env) = None ->
     BootSpec account trB oB ->
     match oB with
     | Err m => Q (Interaction (GetBalance account) (Ok b) :: trB) (Err m)
     | Ok _ =>
         forall t1 t2 p trP o,
           oB = Ok (Some t1, Some t2, Some p) ->
           ProvSpec viem account t1 t2 (Some p) trP o ->
           Q (Interaction (GetBalance account) (Ok b) :: trB ++ trP)%list o
     end) ->
  wp (main viem sdk env) Q.
Proof.
  intros Hstop Hbalance Hresume Hboot.
  unfold main. unfold accountOf in *.
  destruct (PRIVATE_KEY env) as [[| k0 k] |]; try apply Hstop.
  destruct (privateKeyToAccount viem ("0x" ++ String k0 k)%string) as [account |];
    [| apply Hstop].
  specialize (Hbalance account). specialize (Hresume account).
  specialize (Hboot account).
  unfold loadToken.
  destruct (cache_tokenOne (cache env)) as [c1 |] eqn:Hc1;
    destruct (cache_tokenTwo (cache env)) as [c2 |] eqn:Hc2.
  all: repeat match goal with
         | |- context [parseEther ?R (cached_tokenSupply ?c)] =>
             destruct (parseEther R (cached_tokenSupply c)) eqn:?
         end.
  all: cbn [wp bind await orThrow]; try apply Hstop.
  all: (split; [intro m; apply Hbalance; auto |]).
  all: intro b; destruct (Z.eqb_spec b 0) as [-> | Hb];
         [cbn [wp]; apply Hbalance; auto |].
  all: unfold needsBootstrap.
  all: destruct (create env) eqn:Hcreate; cbn [orb negb].
  all: try (apply wp_bind; eapply wp_mono; [| apply wp_bootstrap];
            intros trB oB HB;
            first [ pose proof (Hboot b trB oB eq_refl Hb (or_introl eq_refl) HB) as Hcase
                  | pose proof (Hboot b trB oB eq_refl Hb
                                  (or_intror (or_introl eq_refl)) HB) as Hcase
                  | pose proof (Hboot b trB oB eq_refl Hb
                                  (or_intror (or_intror eq_refl)) HB) as Hcase ];
            destruct oB as [x | m]; [| exact Hcase];
            destruct HB as (_ & _ & _ & Hshape);
            destruct (Hshape x eq_refl) as (t1 & t2 & p & ->);
            eapply wp_mono; [| apply wp_provision];
            intros trP o HP; exact (Hcase t1 t2 p trP o eq_refl HP)).
  cbn [bind]. eapply wp_mono; [| apply wp_provision].
  intros trP o HP. eapply Hresume; eauto.
Qed.

(** A run of [main] against any world satisfies whatever [wp_main]
    establishes. *)
Lemma run_main (env : Env) (w : World) (Q : Trace -> Outcome unit -> Prop) :
  wp (main viem sdk env) Q ->
  Q (fst (run w [] (main viem sdk env))) (snd (run w [] (main viem sdk env))).
Proof.
  intro H. destruct (wp_run _ _ H w []) as [tr [Htr HQ]].
  simpl in Htr. rewrite Htr. exact HQ.
Qed.

End ScriptFacts.

(* ================================================================== *)
(** * The quoted input amount *)
(* ================================================================== *)

Lemma wp_quote_request viem sdk account pool tokensIn tokensOut :
  wp (quoteAndSwap viem sdk account pool tokensIn tokensOut)
     (fun tr _ =>
        forall e to data,
          In e tr -> callRequest e = Some (to, data) ->
          to = QUOTER_V2_ADDRESS wantedContracts /\
          exists route amount,
            newRoute sdk [pool] tokensIn tokensOut = Some route /\
            fromRawAmount sdk tokensIn (Js.String_of_bigint (10 ^ 36)) = Some amount /\
            quoteCallParameters sdk route amount = Some data).
Proof.
  unfold quoteAndSwap. rewrite inputAmountRaw_value.
  match goal with |- wp _ ?post => set (Q := post) end.
  wp_exec; subst Q; cbv beta; intros e to data Hin Hcall; cbn [In] in Hin;
    repeat (destruct Hin as [<- | Hin]; [try discriminate Hcall |]);
    try contradiction;
    injection Hcall as <- <-; (split; [reflexivity |]); eauto.
Qed.

(** C3. The raw amount handed to [CurrencyAmount.fromRawAmount] is the
    decimal string of [10^36]: [parseEther] is applied twice, so the quote
    is requested for [10^18] whole units, not for one whole unit ([10^18]
    raw units).  Whatever the chain answers, every call the quote-and-swap
    phase sends to the quoter carries the calldata the SDK encodes for that
    amount of [10^36] raw units. *)
Theorem inputAmount_is_ten_pow_36 :
  forall viem : Viem,
    inputAmountRaw viem = Some (Js.String_of_bigint (10 ^ 36)) /\
    option_map Js.BigInt (inputAmountRaw viem) = Some (Some (10 ^ 36)) /\
    inputAmountRaw viem <> Some (Js.String_of_bigint (10 ^ 18)) /\
    (forall (sdk : UniswapSdk) (w : World) (hist : Trace) account pool
            tokensIn tokensOut,
     exists tr,
       fst (run w hist (quoteAndSwap viem sdk account pool tokensIn tokensOut))
         = hist ++ tr /\
       forall e to data,
         In e tr -> callRequest e = Some (to, data) ->
         to = QUOTER_V2_ADDRESS wantedContracts /\
         exists route amount,
           newRoute sdk [pool] tokensIn tokensOut = Some route /\
           fromRawAmount sdk tokensIn (Js.String_of_bigint (10 ^ 36)) = Some amount /\
           quoteCallParameters sdk route amount = Some data).
Proof.
  intro viem. rewrite inputAmountRaw_value.
  split; [reflexivity |]. split; [reflexivity |]. split.
  - intro H. vm_compute in H. discriminate H.
  - intros sdk w hist account pool tokensIn tokensOut.
    apply (wp_run _ _ (wp_quote_request viem sdk account pool tokensIn tokensOut)).
Qed.

(* ================================================================== *)
(** * Facts about the phase traces *)
(* ================================================================== *)

Lemma PairTrace_plain account token contract seg o :
  PairTrace account token contract seg o -> Forall plainEntry seg.
Proof.
  intro H. destruct H; repeat constructor.
Qed.

Lemma LoopTrace_plain account pairs tr o :
  LoopTrace account pairs tr o -> Forall plainEntry tr.
Proof.
  induction 1 as [| t c rest seg tr o Hseg Hrest IH | t c rest seg m Hseg].
  - constructor.
  - apply Forall_app. split; [eapply PairTrace_plain; eassumption | exact IH].
  - eapply PairTrace_plain; eassumption.
Qed.

Lemma PairTrace_head account token contract seg o :
  PairTrace account token contract seg o ->
  exists e rest, seg = e :: rest /\
                 allowanceRead e = Some (address token, account, contract).
Proof. intro H. destruct H; eexists; eexists; split; reflexivity. Qed.

Lemma LoopTrace_head account token contract pairs tr o :
  LoopTrace account ((token, contract) :: pairs) tr o ->
  exists e rest, tr = e :: rest /\
                 allowanceRead e = Some (address token, account, contract).
Proof.
  intro H. inversion H as [| t c rest seg tr' o' Hseg Hrest | t c rest seg m Hseg];
    subst; destruct (PairTrace_head _ _ _ _ _ Hseg) as (e & rest' & -> & He).
  - exists e, (rest' ++ tr')%list. split; [reflexivity | exact He].
  - exists e, rest'. split; [reflexivity | exact He].
Qed.

Lemma ProvSpec_postBootstrap viem account t1 t2 pool tr o :
  ProvSpec viem account t1 t2 pool tr o -> Forall postBootstrap tr.
Proof.
  intros (trA & oA & Hloop & Hrest).
  assert (HA : Forall postBootstrap trA).
  { eapply Forall_impl; [| eapply LoopTrace_plain; exact Hloop].
    intros e He. apply He. }
  destruct oA as [[] | m].
  - destruct Hrest as (r & trM & -> & HM & _).
    apply Forall_app. split; [exact HA |]. constructor; [reflexivity | exact HM].
  - destruct Hrest as [-> _]. exact HA.
Qed.

Lemma ProvSpec_head viem account t1 t2 pool tr o :
  ProvSpec viem account t1 t2 pool tr o ->
  exists e rest,
    tr = e :: rest /\
    allowanceRead e =
      Some (address t1, account,
            NONFUNGIBLE_TOKEN_POSITION_MANAGER_ADDRESS wantedContracts).
Proof.
  intros (trA & oA & Hloop & Hrest).
  destruct (LoopTrace_head _ _ _ _ _ _ Hloop) as (e & rest & -> & He).
  destruct oA as [[] | m].
  - destruct Hrest as (r & trM & -> & _). eexists; eexists. split; [reflexivity | exact He].
  - destruct Hrest as [-> _]. eexists; eexists. split; [reflexivity | exact He].
Qed.




Lemma ProvSpec_poolReads viem account t1 t2 pool tr o :
  ProvSpec viem account t1 t2 pool tr o ->
  forall e p, In e tr -> poolRead e = Some p -> p = pool.
Proof.
  intros (trA & oA & Hloop & Hrest) e p Hin Hp.
  assert (HA : forall e, In e trA -> poolRead e = None).
  { pose proof (LoopTrace_plain _ _ _ _ Hloop) as H.
    rewrite Forall_forall in H. intros e' He'. apply (H e' He'). }
  destruct oA as [[] | m].
  - destruct Hrest as (r & trM & -> & _ & HM & _).
    apply in_app_or in Hin. destruct Hin as [Hin | [<- | Hin]].
    + rewrite (HA e Hin) in Hp. discriminate.
    + simpl in Hp. congruence.
    + rewrite Forall_forall in HM. rewrite (HM e Hin) in Hp. discriminate.
  - destruct Hrest as [-> _]. rewrite (HA e Hin) in Hp. discriminate.
Qed.

(* ================================================================== *)
(** * Pool creation and initialisation in a run *)
(* ================================================================== *)

Lemma postBootstrap_not_pool_write (tr : Trace) (req : WriteRequest) :
  Forall postBootstrap tr ->
  In (Some req) (map asWrite tr) ->
  isPoolFunction (w_functionName req) = false.
Proof.
  induction 1 as [| e tr He Htr IH]; simpl; [contradiction |].
  intros [Hreq | Hin]; [| exact (IH Hin)].
  unfold postBootstrap, isBootstrapEntry, isWriteTo in He. rewrite Hreq in He.
  unfold isPoolFunction.
  destruct (isDeploy e); [discriminate |].
  destruct (String.eqb (w_functionName req) "createPool"); [discriminate |].
  destruct (String.eqb (w_functionName req) "createAndInitializePoolIfNecessary");
    [discriminate | reflexivity].
Qed.

Lemma receiptAddresses_app (a b : Trace) :
  receiptAddresses (a ++ b) = (receiptAddresses a ++ receiptAddresses b)%list.
Proof. unfold receiptAddresses. apply flat_map_app. Qed.

(** Every pool creation or initialisation of a run of [main] is a write of
    the bootstrap branch. *)
Lemma main_pool_writes (viem : Viem) (sdk : UniswapSdk) (env : Env) (w : World) :
  forall req,
    In (Some req) (map asWrite (fst (run w [] (main viem sdk env)))) ->
    isPoolFunction (w_functionName req) = true ->
    exists a1 a2 more,
      receiptAddresses (fst (run w [] (main viem sdk env))) = a1 :: a2 :: more /\
      ((w_functionName req = "createPool" /\
        w_args req = [ArgAddress (fst (orderAddresses a1 a2));
                      ArgAddress (snd (orderAddresses a1 a2));
                      ArgUint pool_fee]) \/
       (w_functionName req = "createAndInitializePoolIfNecessary" /\
        w_args req = [ArgAddress (fst (orderAddresses a1 a2));
                      ArgAddress (snd (orderAddresses a1 a2));
                      ArgUint pool_fee; ArgUint (2 ^ 96)])).
Proof.
  apply (run_main viem sdk env w
           (fun tr _ =>
              forall req,
                In (Some req) (map asWrite tr) ->
                isPoolFunction (w_functionName req) = true ->
                exists a1 a2 more,
                  receiptAddresses tr = a1 :: a2 :: more /\
                  ((w_functionName req = "createPool" /\
                    w_args req = [ArgAddress (fst (orderAddresses a1 a2));
                                  ArgAddress (snd (orderAddresses a1 a2));
                                  ArgUint pool_fee]) \/
                   (w_functionName req = "createAndInitializePoolIfNecessary" /\
                    w_args req = [ArgAddress (fst (orderAddresses a1 a2));
                                  ArgAddress (snd (orderAddresses a1 a2));
                                  ArgUint pool_fee; ArgUint (2 ^ 96)])))).
  apply wp_main.
  - intros m req Hin. contradiction.
  - intros account r m _ _ req [Hin | Hin]; [discriminate | contradiction].
  - intros account b c1 c2 s1 s2 trP o _ _ _ _ _ _ _ HP req [Hin | Hin] Hfn;
      [discriminate |].
    rewrite (postBootstrap_not_pool_write trP req
               (ProvSpec_postBootstrap _ _ _ _ _ _ _ HP) Hin) in Hfn.
    discriminate.
  - intros account b trB oB _ _ _ (_ & Hwrites & _ & _).
    assert (Hboot : forall trP req,
              Forall postBootstrap trP ->
              In (Some req)
                 (map asWrite (Interaction (GetBalance account) (Ok b)
                               :: trB ++ trP)%list) ->
              isPoolFunction (w_functionName req) = true ->
              exists a1 a2 more,
                receiptAddresses (Interaction (GetBalance account) (Ok b)
                                  :: trB ++ trP)%list = a1 :: a2 :: more /\
                ((w_functionName req = "createPool" /\
                  w_args req = [ArgAddress (fst (orderAddresses a1 a2));
                                ArgAddress (snd (orderAddresses a1 a2));
                                ArgUint pool_fee]) \/
                 (w_functionName req = "createAndInitializePoolIfNecessary" /\
                  w_args req = [ArgAddress (fst (orderAddresses a1 a2));
                                ArgAddress (snd (orderAddresses a1 a2));
                                ArgUint pool_fee; ArgUint (2 ^ 96)]))).
    { intros trP req HP [Hin | Hin] Hfn; [discriminate |].
      rewrite map_app in Hin. apply in_app_or in Hin. destruct Hin as [Hin | Hin].
      - destruct (Hwrites req Hin) as (a1 & a2 & more & Hrec & Hargs).
        exists a1, a2, (more ++ receiptAddresses trP)%list. split; [| exact Hargs].
        change (receiptAddresses (Interaction (GetBalance account) (Ok b)
                                  :: trB ++ trP)%list)
          with (receiptAddresses (trB ++ trP)).
        rewrite receiptAddresses_app, Hrec. reflexivity.
      - rewrite (postBootstrap_not_pool_write trP req HP Hin) in Hfn. discriminate. }
    destruct oB as [x | m].
    + intros t1 t2 p trP o _ HP req. apply Hboot.
      exact (ProvSpec_postBootstrap _ _ _ _ _ _ _ HP).
    + intros req Hin Hfn. specialize (Hboot [] req (Forall_nil _)).
      rewrite app_nil_r in Hboot. exact (Hboot Hin Hfn).
Qed.

Lemma ltb_cases (a b : string) :
  (String.ltb a b = true /\ String.ltb b a = false) \/
  (String.ltb a b = false /\ String.ltb b a = true) \/
  (String.ltb a b = false /\ String.ltb b a = false /\ a = b).
Proof.
  unfold String.ltb. rewrite (String.compare_antisym a b).
  destruct (String.compare b a) eqn:Hc; simpl; auto.
  right. right. repeat split. symmetry. apply String.compare_eq_iff. exact Hc.
Qed.

(** C1. The pair ordering puts first the token whose lower-cased address is
    not the larger one, and returns its two arguments in one order or the
    other.  It is symmetric: ordering [(t1, t2)] and ordering [(t2, t1)]
    yield the same two addresses position by position, compared without
    regard to case as the ordering itself compares them, and the very same
    pair of records whenever the two addresses differ; the addresses are
    the same strings position by position unless the two arguments spell
    one address in two letter cases.  In every run of the
    script, each [createPool] and each [createAndInitializePoolIfNecessary]
    call carries as its first two arguments the two deployed token
    addresses (the contract addresses of the first two receipts of the run,
    in deployment order) arranged by this ordering. *)
Theorem orderPair_canonical :
  forall (t1 t2 : Token),
    Js.lt (Js.toLowerCase (address (snd (orderPair t1 t2))))
          (Js.toLowerCase (address (fst (orderPair t1 t2)))) = false /\
    (orderPair t1 t2 = (t1, t2) \/ orderPair t1 t2 = (t2, t1)) /\
    (Js.toLowerCase (address (fst (orderPair t1 t2))) =
       Js.toLowerCase (address (fst (orderPair t2 t1))) /\
     Js.toLowerCase (address (snd (orderPair t1 t2))) =
       Js.toLowerCase (address (snd (orderPair t2 t1)))) /\
    (Js.toLowerCase (address t1) <> Js.toLowerCase (address t2) ->
     orderPair t1 t2 = orderPair t2 t1) /\
    ((Js.toLowerCase (address t1) = Js.toLowerCase (address t2) ->
      address t1 = address t2) ->
     address (fst (orderPair t1 t2)) = address (fst (orderPair t2 t1)) /\
     address (snd (orderPair t1 t2)) = address (snd (orderPair t2 t1))) /\
    (forall (viem : Viem) (sdk : UniswapSdk) (env : Env) (w : World) req,
       In (Some req) (map asWrite (fst (run w [] (main viem sdk env)))) ->
       isPoolFunction (w_functionName req) = true ->
       exists a1 a2 more rest,
         receiptAddresses (fst (run w [] (main viem sdk env))) = a1 :: a2 :: more /\
         w_args req = ArgAddress (fst (orderAddresses a1 a2))
                      :: ArgAddress (snd (orderAddresses a1 a2)) :: rest /\
         Js.lt (Js.toLowerCase (snd (orderAddresses a1 a2)))
               (Js.toLowerCase (fst (orderAddresses a1 a2))) = false).
Proof.
  intros t1 t2. unfold orderPair, Js.lt.
  destruct (ltb_cases (Js.toLowerCase (address t1)) (Js.toLowerCase (address t2)))
    as [[H12 H21] | [[H12 H21] | (H12 & H21 & Heq)]];
    rewrite H12, H21; cbn [fst snd].
  1-3: split; [assumption |].
  1-3: split; [auto |].
  1-3: split; [auto |].
  1-3: split; [try reflexivity; intro Hne; contradiction |].
  1-3: split; [try (split; reflexivity); intro Hsame; rewrite (Hsame Heq); auto |].
  1-3: intros viem sdk env w req Hin Hfn;
       destruct (main_pool_writes viem sdk env w req Hin Hfn)
         as (a1 & a2 & more & Hrec & Hargs);
       exists a1, a2, more;
       (destruct Hargs as [[_ Hargs] | [_ Hargs]]; eexists;
        (split; [exact Hrec |]); (split; [exact Hargs |]));
       unfold orderAddresses, Js.lt;
       destruct (ltb_cases (Js.toLowerCase a1) (Js.toLowerCase a2))
         as [[K12 K21] | [[K12 K21] | (K12 & K21 & Keq)]];
       rewrite K12; cbn [fst snd]; assumption.
Qed.

(** Two spellings of one address: the comparison sees equal strings in
    both directions, so either call returns its arguments swapped. *)
Example orderPair_two_spellings :
  let upper := mkToken "0xAB" "Pudgy" "PUDGY" 1 in
  let lower := mkToken "0xab" "Pudgy" "PUDGY" 1 in
  orderPair upper lower = (lower, upper) /\ orderPair lower upper = (upper, lower).
Proof. split; reflexivity. Qed.

Lemma orderPair_canonical_witness :
  Js.toLowerCase (address (mkToken Reference.tokenB "Pudgy" "PUDGY" (10 ^ 21))) <>
  Js.toLowerCase (address (mkToken Reference.tokenA "Penguin" "PENGUIN" (10 ^ 21))) /\
  orderPair (mkToken Reference.tokenB "Pudgy" "PUDGY" (10 ^ 21))
            (mkToken Reference.tokenA "Penguin" "PENGUIN" (10 ^ 21)) =
  orderPair (mkToken Reference.tokenA "Penguin" "PENGUIN" (10 ^ 21))
            (mkToken Reference.tokenB "Pudgy" "PUDGY" (10 ^ 21)).
Proof.
  assert (H : Js.toLowerCase
                (address (mkToken Reference.tokenB "Pudgy" "PUDGY" (10 ^ 21))) <>
              Js.toLowerCase
                (address (mkToken Reference.tokenA "Penguin" "PENGUIN" (10 ^ 21)))).
  { intro H. vm_compute in H. discriminate H. }
  split; [exact H |].
  exact (proj1 (proj2 (proj2 (proj2
           (orderPair_canonical (mkToken Reference.tokenB "Pudgy" "PUDGY" (10 ^ 21))
              (mkToken Reference.tokenA "Penguin" "PENGUIN" (10 ^ 21)))))) H).
Defined.

(** C9. The initial price is computed as
    [BigInt(Math.floor(Math.sqrt(Number(startingPrice)) * 2 ** 96))] in
    double precision; for the starting ratio 1 of the script every step is
    exact, the value is [2^96] (the integer [floor (sqrt (1 * 2^192))]),
    and every [createAndInitializePoolIfNecessary] call of every run
    carries exactly [2^96] as its price argument. *)
Theorem sqrtPriceX96_is_two_pow_96 :
  sqrtPriceX96 = sqrtPriceX96_of startingPrice /\
  startingPrice = 1 /\
  sqrtPriceX96 = Some (2 ^ 96) /\
  sqrtPriceX96 = Some (Z.sqrt (startingPrice * 2 ^ 192)) /\
  (forall (viem : Viem) (sdk : UniswapSdk) (env : Env) (w : World) req,
     In (Some req) (map asWrite (fst (run w [] (main viem sdk env)))) ->
     w_functionName req = "createAndInitializePoolIfNecessary" ->
     exists a b,
       w_args req = [ArgAddress a; ArgAddress b; ArgUint pool_fee; ArgUint (2 ^ 96)]).
Proof.
  split; [reflexivity |]. split; [reflexivity |].
  split; [exact sqrtPriceX96_value |].
  split; [rewrite sqrtPriceX96_value; vm_compute; reflexivity |].
  intros viem sdk env w req Hin Hfn.
  assert (Hpool : isPoolFunction (w_functionName req) = true)
    by (rewrite Hfn; reflexivity).
  destruct (main_pool_writes viem sdk env w req Hin Hpool)
    as (a1 & a2 & more & _ & [[Hname _] | [_ Hargs]]).
  - rewrite Hfn in Hname. discriminate Hname.
  - eexists; eexists. exact Hargs.
Qed.

Lemma sqrtPriceX96_witness :
  exists a b,
    w_args (initializeRequest "0x1111111111111111111111111111111111111111"
              (mkToken Reference.tokenA "Penguin" "PENGUIN" (10 ^ 21))
              (mkToken Reference.tokenB "Pudgy" "PUDGY" (10 ^ 21))
              wantedContracts (2 ^ 96) 7)
    = [ArgAddress a; ArgAddress b; ArgUint pool_fee; ArgUint (2 ^ 96)].
Proof.
  apply (proj2 (proj2 (proj2 (proj2 sqrtPriceX96_is_two_pow_96)))
           Reference.viem Reference.sdk Reference.freshEnv Reference.world).
  - vm_compute. do 8 right. left. reflexivity.
  - reflexivity.
Defined.

(* ================================================================== *)
(** * Resuming from the cache *)
(* ================================================================== *)

(** C2. When the cache holds both token records and [--create] is absent,
    no run issues a bootstrap request (token deployment, pool creation,
    pool initialisation, cache write); and once the balance request is
    answered with a nonzero balance, the next request is the allowance read
    of the first cached token for the position manager. *)
Theorem resume_skips_bootstrap :
  forall (viem : Viem) (sdk : UniswapSdk) (env : Env) (w : World) c1 c2,
    create env = false ->
    cache_tokenOne (cache env) = Some c1 ->
    cache_tokenTwo (cache env) = Some c2 ->
    Forall (fun e => isBootstrapEntry e = false)
           (fst (run w [] (main viem sdk env))) /\
    (forall e rest b,
       fst (run w [] (main viem sdk env)) = e :: rest ->
       balanceAnswer e = Some (Ok b) ->
       b <> 0 ->
       exists account e' rest',
         accountOf viem env = Some account /\
         rest = e' :: rest' /\
         allowanceRead e' =
           Some (cached_address c1, account,
                 NONFUNGIBLE_TOKEN_POSITION_MANAGER_ADDRESS wantedContracts)).
Proof.
  intros viem sdk env w c1 c2 Hcreate Hc1 Hc2.
  apply (run_main viem sdk env w
           (fun tr _ =>
              Forall (fun e => isBootstrapEntry e = false) tr /\
              (forall e rest b,
                 tr = e :: rest ->
                 balanceAnswer e = Some (Ok b) ->
                 b <> 0 ->
                 exists account e' rest',
                   accountOf viem env = Some account /\
                   rest = e' :: rest' /\
                   allowanceRead e' =
                     Some (cached_address c1, account,
                           NONFUNGIBLE_TOKEN_POSITION_MANAGER_ADDRESS wantedContracts)))).
  apply wp_main.
  - intro m. split; [constructor | intros e rest b H; discriminate H].
  - intros account r m _ Hr. split; [repeat constructor |].
    intros e rest b Htr He Hb. injection Htr as <- <-. simpl in He.
    destruct Hr as [-> | [-> _]]; [discriminate He |].
    injection He as <-. contradiction.
  - intros account b d1 d2 s1 s2 trP o Hacc _ _ Hd1 _ _ _ HP.
    rewrite Hc1 in Hd1. injection Hd1 as <-. split.
    + constructor; [reflexivity |].
      exact (ProvSpec_postBootstrap _ _ _ _ _ _ _ HP).
    + intros e rest b' Htr _ _. injection Htr as <- <-.
      destruct (ProvSpec_head _ _ _ _ _ _ _ HP) as (e' & rest' & -> & He').
      exists account, e', rest'. auto.
  - intros account b trB oB _ _ Hwhy _. exfalso.
    destruct Hwhy as [H | [H | H]]; congruence.
Qed.

Lemma resume_skips_bootstrap_witness :
  Forall (fun e => isBootstrapEntry e = false)
         (fst (run Reference.world []
                 (main Reference.viem Reference.sdk Reference.resumeEnv))).
Proof.
  exact (proj1 (resume_skips_bootstrap Reference.viem Reference.sdk
                  Reference.resumeEnv Reference.world
                  Reference.cachedA Reference.cachedB eq_refl eq_refl eq_refl)).
Defined.

(* ================================================================== *)
(** * The bootstrap condition *)
(* ================================================================== *)

Lemma needsBootstrap_iff (c : bool) (t1 t2 : option Token) :
  needsBootstrap c t1 t2 = true <-> c = true \/ t1 = None \/ t2 = None.
Proof.
  unfold needsBootstrap. destruct c, t1, t2; simpl; split; auto;
    intros [H | [H | H]]; discriminate.
Qed.

(** C10. The condition of the bootstrap branch holds exactly when
    [--create] is given or a token variable is undefined, and in a run that
    passes the balance check the next request is a token deployment
    exactly when [--create] is given or a token record is missing from the
    cache; the cached pool address plays no part.  With both token records
    cached, no flag and no cached pool address, the run issues no bootstrap
    request, goes through the allowance loop and, when that completes,
    reads the pool state at the undefined address. *)
Theorem bootstrap_iff_create_or_missing_token :
  forall (viem : Viem) (sdk : UniswapSdk) (env : Env) (w : World),
    (forall c t1 t2,
       needsBootstrap c t1 t2 = true <-> c = true \/ t1 = None \/ t2 = None) /\
    (forall e rest b,
       fst (run w [] (main viem sdk env)) = e :: rest ->
       balanceAnswer e = Some (Ok b) ->
       b <> 0 ->
       ((exists e' rest', rest = e' :: rest' /\ isDeploy e' = true) <->
        (create env = true \/ cache_tokenOne (cache env) = None
         \/ cache_tokenTwo (cache env) = None))) /\
    (forall c1 c2,
       create env = false ->
       cache_tokenOne (cache env) = Some c1 ->
       cache_tokenTwo (cache env) = Some c2 ->
       cache_poolAddress (cache env) = None ->
       Forall (fun e => isBootstrapEntry e = false)
              (fst (run w [] (main viem sdk env))) /\
       (forall e p, In e (fst (run w [] (main viem sdk env))) ->
                    poolRead e = Some p -> p = None) /\
       (forall e rest b,
          fst (run w [] (main viem sdk env)) = e :: rest ->
          balanceAnswer e = Some (Ok b) ->
          b <> 0 ->
          exists account t1 t2 trA oA,
            address t1 = cached_address c1 /\
            address t2 = cached_address c2 /\
            LoopTrace account (list_prod [t1; t2] spenders) trA oA /\
            match oA with
            | Ok _ => exists r trM,
                        rest = trA ++ Interaction (ReadPoolState None) r :: trM
            | Err _ => rest = trA
            end)).
Proof.
  intros viem sdk env w. split; [exact needsBootstrap_iff |].
  apply (run_main viem sdk env w
    (fun tr _ =>
      (forall e rest b,
         tr = e :: rest ->
         balanceAnswer e = Some (Ok b) ->
         b <> 0 ->
         ((exists e' rest', rest = e' :: rest' /\ isDeploy e' = true) <->
          (create env = true \/ cache_tokenOne (cache env) = None
           \/ cache_tokenTwo (cache env) = None))) /\
      (forall c1 c2,
         create env = false ->
         cache_tokenOne (cache env) = Some c1 ->
         cache_tokenTwo (cache env) = Some c2 ->
         cache_poolAddress (cache env) = None ->
         Forall (fun e => isBootstrapEntry e = false) tr /\
         (forall e p, In e tr -> poolRead e = Some p -> p = None) /\
         (forall e rest b,
            tr = e :: rest ->
            balanceAnswer e = Some (Ok b) ->
            b <> 0 ->
            exists account t1 t2 trA oA,
              address t1 = cached_address c1 /\
              address t2 = cached_address c2 /\
              LoopTrace account (list_prod [t1; t2] spenders) trA oA /\
              match oA with
              | Ok _ => exists r trM,
                          rest = trA ++ Interaction (ReadPoolState None) r :: trM
              | Err _ => rest = trA
              end)))).
  apply wp_main.
  - intro m. split.
    + intros e rest b H. discriminate H.
    + intros c1 c2 _ _ _ _. split; [constructor |].
      split; [intros e p [] | intros e rest b H; discriminate H].
  - intros account r m _ Hr.
    assert (Hno : forall e rest b,
              [Interaction (GetBalance account) r] = e :: rest ->
              balanceAnswer e = Some (Ok b) -> b <> 0 -> False).
    { intros e rest b Htr He Hb. injection Htr as <- <-. simpl in He.
      destruct Hr as [-> | [-> _]]; [discriminate He |].
      injection He as <-. contradiction. }
    split.
    + intros e rest b Htr He Hb. destruct (Hno e rest b Htr He Hb).
    + intros c1 c2 _ _ _ _. split; [repeat constructor |]. split.
      * intros e p [<- | []] Hp. discriminate Hp.
      * intros e rest b Htr He Hb. destruct (Hno e rest b Htr He Hb).
  - intros account b d1 d2 s1 s2 trP o Hacc _ Hcreate Hd1 Hd2 _ _ HP. split.
    + intros e rest b' Htr _ _. injection Htr as <- <-. split.
      * intros (e' & rest' & -> & Hdep).
        destruct (ProvSpec_head _ _ _ _ _ _ _ HP) as (e0 & rest0 & Heq & He0).
        injection Heq as <- <-. destruct e' as [X [] r]; discriminate.
      * intros [H | [H | H]]; congruence.
    + intros c1 c2 _ Hc1 Hc2 Hpool.
      rewrite Hc1 in Hd1. injection Hd1 as <-.
      rewrite Hc2 in Hd2. injection Hd2 as <-.
      rewrite Hpool in HP. split; [| split].
      * constructor; [reflexivity |].
        exact (ProvSpec_postBootstrap _ _ _ _ _ _ _ HP).
      * intros e p [<- | Hin] Hp; [discriminate Hp |].
        exact (ProvSpec_poolReads _ _ _ _ _ _ _ HP e p Hin Hp).
      * intros e rest b' Htr _ _. injection Htr as <- <-.
        destruct HP as (trA & oA & Hloop & Hrest).
        exists account, (loaded c1 s1), (loaded c2 s2), trA, oA.
        split; [reflexivity |]. split; [reflexivity |]. split; [exact Hloop |].
        destruct oA as [[] | m].
        -- destruct Hrest as (r & trM & -> & _). eauto.
        -- destruct Hrest as [-> _]. reflexivity.
  - intros account b trB oB _ _ Hwhy ((r & restB & ->) & _ & _ & _).
    assert (Hyes : forall tail e rest,
              Interaction (GetBalance account) (Ok b)
              :: (Interaction (DeployContract account token_one_name
                                 token_one_symbol (10 ^ 21)) r :: restB) ++ tail
              = e :: rest ->
              ((exists e' rest', rest = e' :: rest' /\ isDeploy e' = true) <->
               (create env = true \/ cache_tokenOne (cache env) = None
                \/ cache_tokenTwo (cache env) = None))).
    { intros tail e rest Htr. injection Htr as <- <-. split; [auto |].
      intros _. eexists; eexists. split; reflexivity. }
    assert (Hnot : forall c1 c2 (P : Prop),
              create env = false ->
              cache_tokenOne (cache env) = Some c1 ->
              cache_tokenTwo (cache env) = Some c2 -> P).
    { intros c1 c2 P H1 H2 H3. exfalso. destruct Hwhy as [H | [H | H]]; congruence. }
    destruct oB as [x | m].
    + intros t1 t2 p trP o _ _. split.
      * intros e rest b' Htr _ _. exact (Hyes trP e rest Htr).
      * intros c1 c2 H1 H2 H3 _. exact (Hnot c1 c2 _ H1 H2 H3).
    + split.
      * intros e rest b' Htr _ _. apply (Hyes [] e rest).
        rewrite app_nil_r. exact Htr.
      * intros c1 c2 H1 H2 H3 _. exact (Hnot c1 c2 _ H1 H2 H3).
Qed.

Lemma bootstrap_condition_witness :
  Forall (fun e => isBootstrapEntry e = false)
         (fst (run Reference.world []
                 (main Reference.viem Reference.sdk Reference.noPoolEnv))) /\
  (forall e p,
     In e (fst (run Reference.world []
                  (main Reference.viem Reference.sdk Reference.noPoolEnv))) ->
     poolRead e = Some p -> p = None).
Proof.
  destruct (proj2 (proj2 (bootstrap_iff_create_or_missing_token
                            Reference.viem Reference.sdk Reference.noPoolEnv
                            Reference.world))
              Reference.cachedA Reference.cachedB eq_refl eq_refl eq_refl eq_refl)
    as (H1 & H2 & _).
  split; [exact H1 | exact H2].
Defined.

(** On the reference chain the run without a cached pool address does reach
    the pool reads, at the undefined address. *)
Example noPool_run_reads_undefined_pool :
  In (Some None)
     (map poolRead
        (fst (run Reference.world []
                (main Reference.viem Reference.sdk Reference.noPoolEnv)))).
Proof. vm_compute. do 9 right. left. reflexivity. Qed.

(* ================================================================== *)
(** * The swap amount *)
(* ================================================================== *)



(* ================================================================== *)
(** * The reference runs *)
(* ================================================================== *)

(** The first run on the reference chain completes; the tokens were
    deployed at the larger address first, and pool creation receives them
    smaller address first. *)
Example fresh_run_completes :
  snd (run Reference.world []
         (main Reference.viem Reference.sdk Reference.freshEnv)) = Ok tt /\
  nth_error
    (map asWrite
       (fst (run Reference.world []
               (main Reference.viem Reference.sdk Reference.freshEnv)))) 5
  = Some (Some (createPoolRequest Reference.account
                  (mkToken Reference.tokenA token_two_name token_two_symbol (10 ^ 21))
                  (mkToken Reference.tokenB token_one_name token_one_symbol (10 ^ 21))
                  wantedContracts)).
Proof. split; vm_compute; reflexivity. Qed.

(** The later run on the reference chain completes without any bootstrap
    request. *)
Example resume_run_completes :
  snd (run Reference.world []
         (main Reference.viem Reference.sdk Reference.resumeEnv)) = Ok tt /\
  existsb isBootstrapEntry
    (fst (run Reference.world []
            (main Reference.viem Reference.sdk Reference.resumeEnv))) = false.
Proof. split; vm_compute; reflexivity. Qed.

(* ================================================================== *)
(** * Chains of adjacent entries across the phases *)
(* ================================================================== *)

Lemma wp_conj {A} (p : Prog A) (Q1 Q2 : Trace -> Outcome A -> Prop) :
  wp p Q1 -> wp p Q2 -> wp p (fun tr o => Q1 tr o /\ Q2 tr o).
Proof.
  revert Q1 Q2. induction p as [a | m | X e k IH]; intros Q1 Q2; simpl.
  - auto.
  - auto.
  - intros [E1 K1] [E2 K2]. split; [auto |].
    intro x. exact (IH x _ _ (K1 x) (K2 x)).
Qed.

Section ChainFacts.

Variable step : option Entry -> Entry -> Prop.
Variable quiet : Entry -> Prop.

(** A constraint that holds at the start of a trace also holds after a
    quiet entry. *)
Hypothesis step_after_quiet :
  forall prev e, quiet prev -> step None e -> step (Some prev) e.

Lemma chain_weaken prev tr :
  quietOpt quiet prev -> chain step None tr -> chain step prev tr.
Proof.
  destruct tr as [| e rest]; simpl; [auto |].
  intros Hq [Hs Hc]. split; [| exact Hc].
  destruct prev as [p |]; [apply step_after_quiet; assumption | exact Hs].
Qed.

Lemma chain_app prev tr1 tr2 :
  chain step prev tr1 -> quietOpt quiet (lastEntry prev tr1) ->
  chain step None tr2 -> chain step prev (tr1 ++ tr2).
Proof.
  revert prev. induction tr1 as [| e rest IH]; intro prev; simpl.
  - intros _ Hq H2. apply chain_weaken; assumption.
  - intros [Hs Hc] Hq H2. split; [exact Hs | apply IH; assumption].
Qed.

Lemma lastEntry_app prev tr1 tr2 :
  lastEntry prev (tr1 ++ tr2) = lastEntry (lastEntry prev tr1) tr2.
Proof.
  revert prev. induction tr1 as [| e rest IH]; intro prev; simpl;
    [reflexivity | apply IH].
Qed.

Lemma quiet_last_app tr1 tr2 :
  quietOpt quiet (lastEntry None tr1) -> quietOpt quiet (lastEntry None tr2) ->
  quietOpt quiet (lastEntry None (tr1 ++ tr2)).
Proof.
  intros H1 H2. rewrite lastEntry_app.
  destruct tr2 as [| e rest]; [exact H1 | exact H2].
Qed.

Lemma PhasePost_app {A B} tr1 tr2 (a : A) (o : Outcome B) :
  PhasePost step quiet tr1 (Ok a) -> PhasePost step quiet tr2 o ->
  PhasePost step quiet (tr1 ++ tr2) o.
Proof.
  intros [Hc1 Hq1] [Hc2 Hq2]. split.
  - apply chain_app; [exact Hc1 | exact (Hq1 a eq_refl) | exact Hc2].
  - intros b Hb. apply quiet_last_app; [exact (Hq1 a eq_refl) | exact (Hq2 b Hb)].
Qed.

Lemma PhasePost_failed {A B} tr m :
  PhasePost step quiet (A := A) tr (Err m) -> PhasePost step quiet (A := B) tr (Err m).
Proof. intros [Hc _]. split; [exact Hc | intros b Hb; discriminate Hb]. Qed.

Lemma PhasePost_nil {A} (o : Outcome A) : PhasePost step quiet [] o.
Proof. split; simpl; auto. Qed.

(** Phases compose. *)
Lemma wp_phase_bind {A B} (p : Prog A) (f : A -> Prog B) :
  wp p (PhasePost step quiet) ->
  (forall a, wp (f a) (PhasePost step quiet)) ->
  wp (bind p f) (PhasePost step quiet).
Proof.
  intros Hp Hf. apply wp_bind. eapply wp_mono; [| exact Hp].
  intros tr [a | m] Htr.
  - eapply wp_mono; [| apply Hf]. intros tr' o' Htr'.
    exact (PhasePost_app tr tr' a o' Htr Htr').
  - exact (PhasePost_failed tr m Htr).
Qed.

Lemma wp_phase_await {X} (e : effectE X) :
  (forall r, step None (Interaction e r)) ->
  (forall x, quiet (Interaction e (Ok x))) ->
  wp (await e) (PhasePost step quiet).
Proof.
  intros Hs Hq. apply wp_await.
  - intro m. split; [simpl; auto | intros a Ha; discriminate Ha].
  - intro x. split; [simpl; auto | intros a _; simpl; apply Hq].
Qed.

(** The allowance loop is a phase as soon as each pass of its body is. *)
Lemma LoopTrace_phase account pairs tr o :
  (forall token contract seg o',
     PairTrace account token contract seg o' -> PhasePost step quiet seg o') ->
  LoopTrace account pairs tr o -> PhasePost step quiet tr o.
Proof.
  intros Hpair H.
  induction H as [| t c rest seg tr o Hseg Hrest IH | t c rest seg m Hseg].
  - apply PhasePost_nil.
  - exact (PhasePost_app seg tr tt o (Hpair _ _ _ _ Hseg) IH).
  - exact (Hpair _ _ _ _ Hseg).
Qed.

Lemma wp_giveAllowances_phase account tokens contracts :
  (forall token contract seg o',
     PairTrace account token contract seg o' -> PhasePost step quiet seg o') ->
  wp (giveAllowances account tokens contracts) (PhasePost step quiet).
Proof.
  intro Hpair. eapply wp_mono; [| apply wp_giveAllowances].
  intros tr o. apply LoopTrace_phase. exact Hpair.
Qed.

Variable viem : Viem.
Variable sdk : UniswapSdk.

(** [main] is a phase as soon as the balance request, the bootstrap branch
    and the later phases are. *)
Lemma wp_main_phase (env : Env) :
  (forall account r, step None (Interaction (GetBalance account) r)) ->
  (forall account b, quiet (Interaction (GetBalance account) (Ok b))) ->
  (forall account,
     accountOf viem env = Some account ->
     wp (bootstrap viem account) (PhasePost step quiet)) ->
  (forall account t1 t2 pool,
     accountOf viem env = Some account ->
     wp (provision viem sdk account t1 t2 pool) (PhasePost step quiet)) ->
  wp (main viem sdk env) (PhasePost step quiet).
Proof.
  intros Hbal Hbalq Hboot Hprov.
  unfold main. unfold accountOf in *.
  destruct (PRIVATE_KEY env) as [[| k0 k] |]; try apply PhasePost_nil.
  destruct (privateKeyToAccount viem ("0x" ++ String k0 k)%string) as [account |];
    [| apply PhasePost_nil].
  specialize (Hboot account eq_refl).
  assert (Hprov' := fun t1 t2 pool => Hprov account t1 t2 pool eq_refl).
  clear Hprov.
  unfold loadToken.
  destruct (cache_tokenOne (cache env)) as [c1 |];
    destruct (cache_tokenTwo (cache env)) as [c2 |].
  all: repeat match goal with
         | |- context [parseEther ?R (cached_tokenSupply ?c)] =>
             destruct (parseEther R (cached_tokenSupply c))
         end.
  all: cbn [bind orThrow]; try apply PhasePost_nil.
  all: apply wp_phase_bind; [apply wp_phase_await; auto |].
  all: intro b; destruct (b =? 0); [apply PhasePost_nil |].
  all: apply wp_phase_bind;
         [ destruct (needsBootstrap _ _ _); [exact Hboot | apply PhasePost_nil]
         | intros [[[t1 |] [t2 |]] pool]; first [apply Hprov' | apply PhasePost_nil] ].
Qed.

End ChainFacts.

Lemma chain_adjacent step prev tr pre p e post :
  chain step prev tr -> tr = pre ++ p :: e :: post -> step (Some p) e.
Proof.
  revert prev tr. induction pre as [| x pre IH]; intros prev tr Hc ->; simpl in Hc.
  - destruct Hc as [_ [Hs _]]. exact Hs.
  - destruct Hc as [_ Hc]. exact (IH _ _ Hc eq_refl).
Qed.

Lemma lastEntry_snoc prev tr e : lastEntry prev (tr ++ [e]) = Some e.
Proof.
  revert prev. induction tr as [| x tr IH]; intro prev; simpl; [reflexivity | apply IH].
Qed.

(* ================================================================== *)
(** * Transactions are awaited one at a time *)
(* ================================================================== *)

Ltac sequential_leaf :=
  unfold PhasePost, awaitsSubmission, noPendingHash;
  cbn [chain lastEntry quietOpt before submittedHash waitedHash];
  (split; [repeat split
          | let Hok := fresh "Hok" in
            intros ? Hok; try discriminate Hok; try exact I; reflexivity]).

Lemma sequential_after_quiet prev e :
  noPendingHash prev -> awaitsSubmission None e -> awaitsSubmission (Some prev) e.
Proof.
  unfold noPendingHash, awaitsSubmission. simpl. intros -> H. exact H.
Qed.

Lemma PairTrace_sequential account token contract seg o :
  PairTrace account token contract seg o ->
  PhasePost awaitsSubmission noPendingHash seg o.
Proof. intro H. destruct H; sequential_leaf. Qed.

Lemma wp_bootstrap_sequential viem account :
  wp (bootstrap viem account) (PhasePost awaitsSubmission noPendingHash).
Proof.
  unfold bootstrap. rewrite token_one_supply_value, token_two_supply_value.
  unfold deployToken, createPool, saveCache. rewrite sqrtPriceX96_value.
  wp_exec; sequential_leaf.
Qed.

Lemma wp_provision_sequential viem sdk account t1 t2 pool :
  wp (provision viem sdk account t1 t2 pool)
     (PhasePost awaitsSubmission noPendingHash).
Proof.
  unfold provision.
  apply (wp_phase_bind _ _ sequential_after_quiet).
  - apply (wp_giveAllowances_phase _ _ sequential_after_quiet).
    apply PairTrace_sequential.
  - intros _. unfold quoteAndSwap. rewrite inputAmountRaw_value.
    wp_exec; sequential_leaf.
Qed.

(** X1. In every run the transactions are handled one at a time: a request
    waits for a receipt exactly when the request just before it submitted a
    transaction and was answered with a hash, and then it waits for that
    hash; and a run that completes has awaited its last transaction. *)
Theorem transactions_awaited_one_at_a_time :
  forall (viem : Viem) (sdk : UniswapSdk) (env : Env) (w : World),
    (forall e rest,
       fst (run w [] (main viem sdk env)) = e :: rest -> waitedHash e = None) /\
    (forall pre p e post,
       fst (run w [] (main viem sdk env)) = pre ++ p :: e :: post ->
       submittedHash p = waitedHash e) /\
    (forall pre e,
       fst (run w [] (main viem sdk env)) = pre ++ [e] ->
       snd (run w [] (main viem sdk env)) = Ok tt ->
       submittedHash e = None).
Proof.
  intros viem sdk env w.
  assert (H : PhasePost awaitsSubmission noPendingHash
                (fst (run w [] (main viem sdk env)))
                (snd (run w [] (main viem sdk env)))).
  { apply run_main.
    apply (wp_main_phase _ _ sequential_after_quiet).
    - intros account r. reflexivity.
    - intros account b. reflexivity.
    - intros account _. apply wp_bootstrap_sequential.
    - intros account t1 t2 pool _. apply wp_provision_sequential. }
  destruct H as [Hchain Hlast]. split; [| split].
  - intros e rest Heq. rewrite Heq in Hchain. destruct Hchain as [Hs _].
    symmetry. exact Hs.
  - intros pre p e post Heq.
    exact (chain_adjacent _ _ _ _ _ _ _ Hchain Heq).
  - intros pre e Heq Hok. specialize (Hlast tt Hok).
    rewrite Heq, lastEntry_snoc in Hlast. exact Hlast.
Qed.

Lemma transactions_awaited_witness :
  submittedHash (nth 1 (fst (run Reference.world [] (main Reference.viem Reference.sdk Reference.freshEnv)))
                   (Interaction DateNow (Err "none"))) =
  waitedHash (nth 2 (fst (run Reference.world [] (main Reference.viem Reference.sdk Reference.freshEnv)))
                (Interaction DateNow (Err "none"))).
Proof.
  apply (proj1 (proj2 (transactions_awaited_one_at_a_time Reference.viem Reference.sdk
                         Reference.freshEnv Reference.world))
           (firstn 1 (fst (run Reference.world [] (main Reference.viem Reference.sdk Reference.freshEnv))))
           _ _
           (skipn 3 (fst (run Reference.world [] (main Reference.viem Reference.sdk Reference.freshEnv))))).
  vm_compute. reflexivity.
Defined.


(* ================================================================== *)
(** * Explicit nonces are fresh *)
(* ================================================================== *)

Ltac nonce_leaf :=
  unfold PhasePost, usesFreshNonce, anyEntry;
  cbn [chain lastEntry quietOpt before nonceUsed nonceAnswer option_map w_nonce
       w_account createPoolRequest initializeRequest approveRequest swapRequest];
  (split; [repeat split | intros; exact I]).

Lemma nonce_after_any prev e :
  anyEntry prev -> usesFreshNonce None e -> usesFreshNonce (Some prev) e.
Proof.
  unfold usesFreshNonce. intros _. destruct (nonceUsed e); simpl;
    [discriminate | auto].
Qed.

Lemma PairTrace_nonce account token contract seg o :
  PairTrace account token contract seg o -> PhasePost usesFreshNonce anyEntry seg o.
Proof. intro H. destruct H; nonce_leaf. Qed.

Lemma wp_bootstrap_nonce viem account :
  wp (bootstrap viem account) (PhasePost usesFreshNonce anyEntry).
Proof.
  unfold bootstrap. rewrite token_one_supply_value, token_two_supply_value.
  unfold deployToken, createPool, saveCache. rewrite sqrtPriceX96_value.
  wp_exec; nonce_leaf.
Qed.

Lemma wp_provision_nonce viem sdk account t1 t2 pool :
  wp (provision viem sdk account t1 t2 pool) (PhasePost usesFreshNonce anyEntry).
Proof.
  unfold provision.
  apply (wp_phase_bind _ _ nonce_after_any).
  - apply (wp_giveAllowances_phase _ _ nonce_after_any). apply PairTrace_nonce.
  - intros _. unfold quoteAndSwap. rewrite inputAmountRaw_value.
    wp_exec; nonce_leaf.
Qed.

(** X2. In every run, a request that passes an explicit nonce (the pool
    initialisation, the prepared mint transaction, the swap) comes right
    after a transaction-count request for the same account, and the nonce
    it passes is the count that request was answered with. *)
Theorem explicit_nonce_is_fresh_count :
  forall (viem : Viem) (sdk : UniswapSdk) (env : Env) (w : World),
    (forall e rest,
       fst (run w [] (main viem sdk env)) = e :: rest -> nonceUsed e = None) /\
    (forall pre p e post used,
       fst (run w [] (main viem sdk env)) = pre ++ p :: e :: post ->
       nonceUsed e = Some used ->
       nonceAnswer p = Some used).
Proof.
  intros viem sdk env w.
  assert (H : PhasePost usesFreshNonce anyEntry
                (fst (run w [] (main viem sdk env)))
                (snd (run w [] (main viem sdk env)))).
  { apply run_main.
    apply (wp_main_phase _ _ nonce_after_any).
    - intros account r. exact I.
    - intros account b. exact I.
    - intros account _. apply wp_bootstrap_nonce.
    - intros account t1 t2 pool _. apply wp_provision_nonce. }
  destruct H as [Hchain _]. split.
  - intros e rest Heq. rewrite Heq in Hchain. destruct Hchain as [Hs _].
    unfold usesFreshNonce in Hs. destruct (nonceUsed e); [discriminate Hs | reflexivity].
  - intros pre p e post used Heq Hused.
    pose proof (chain_adjacent _ _ _ _ _ _ _ Hchain Heq) as Hs.
    unfold usesFreshNonce in Hs. rewrite Hused in Hs. exact Hs.
Qed.

Lemma explicit_nonce_witness :
  nonceAnswer (nth 7 (fst (run Reference.world [] (main Reference.viem Reference.sdk Reference.freshEnv)))
                 (Interaction DateNow (Err "none"))) = Some (Reference.account, 7).
Proof.
  apply (proj2 (explicit_nonce_is_fresh_count Reference.viem Reference.sdk
                  Reference.freshEnv Reference.world)
           (firstn 7 (fst (run Reference.world [] (main Reference.viem Reference.sdk Reference.freshEnv))))
           _
           (nth 8 (fst (run Reference.world [] (main Reference.viem Reference.sdk Reference.freshEnv)))
              (Interaction DateNow (Err "none")))
           (skipn 9 (fst (run Reference.world [] (main Reference.viem Reference.sdk Reference.freshEnv))))).
  - vm_compute. reflexivity.
  - vm_compute. reflexivity.
Defined.


(* ================================================================== *)
(** * The mint transaction: prepared, signed, sent *)
(* ================================================================== *)

Ltac signing_leaf :=
  unfold PhasePost, signsPreparedSendsSigned, anyEntry;
  cbn [chain lastEntry quietOpt before signedRequest preparedRequest signature
       sentTransaction];
  (split; [repeat split | intros; exact I]).

Lemma signing_after_any prev e :
  anyEntry prev -> signsPreparedSendsSigned None e ->
  signsPreparedSendsSigned (Some prev) e.
Proof.
  unfold signsPreparedSendsSigned. intros _ [H1 H2].
  destruct (signedRequest e); [discriminate H1 |].
  destruct (sentTransaction e); [discriminate H2 |]. auto.
Qed.

Lemma PairTrace_signing account token contract seg o :
  PairTrace account token contract seg o ->
  PhasePost signsPreparedSendsSigned anyEntry seg o.
Proof. intro H. destruct H; signing_leaf. Qed.

Lemma wp_bootstrap_signing viem account :
  wp (bootstrap viem account) (PhasePost signsPreparedSendsSigned anyEntry).
Proof.
  unfold bootstrap. rewrite token_one_supply_value, token_two_supply_value.
  unfold deployToken, createPool, saveCache. rewrite sqrtPriceX96_value.
  wp_exec; signing_leaf.
Qed.

Lemma wp_provision_signing viem sdk account t1 t2 pool :
  wp (provision viem sdk account t1 t2 pool)
     (PhasePost signsPreparedSendsSigned anyEntry).
Proof.
  unfold provision.
  apply (wp_phase_bind _ _ signing_after_any).
  - apply (wp_giveAllowances_phase _ _ signing_after_any). apply PairTrace_signing.
  - intros _. unfold quoteAndSwap. rewrite inputAmountRaw_value.
    wp_exec; signing_leaf.
Qed.

(** X3. In every run, whatever is signed is the transaction request that
    the request just before prepared, and whatever is sent raw is the
    serialised transaction that the request just before signed. *)
Theorem signs_what_was_prepared_sends_what_was_signed :
  forall (viem : Viem) (sdk : UniswapSdk) (env : Env) (w : World),
    (forall e rest,
       fst (run w [] (main viem sdk env)) = e :: rest ->
       signedRequest e = None /\ sentTransaction e = None) /\
    (forall pre p e post,
       fst (run w [] (main viem sdk env)) = pre ++ p :: e :: post ->
       (forall request, signedRequest e = Some request ->
                        preparedRequest p = Some request) /\
       (forall serialized, sentTransaction e = Some serialized ->
                           signature p = Some serialized)).
Proof.
  intros viem sdk env w.
  assert (H : PhasePost signsPreparedSendsSigned anyEntry
                (fst (run w [] (main viem sdk env)))
                (snd (run w [] (main viem sdk env)))).
  { apply run_main.
    apply (wp_main_phase _ _ signing_after_any).
    - intros account r. split; exact I.
    - intros account b. exact I.
    - intros account _. apply wp_bootstrap_signing.
    - intros account t1 t2 pool _. apply wp_provision_signing. }
  destruct H as [Hchain _]. split.
  - intros e rest Heq. rewrite Heq in Hchain. destruct Hchain as [[H1 H2] _].
    destruct (signedRequest e); [discriminate H1 |].
    destruct (sentTransaction e); [discriminate H2 |]. auto.
  - intros pre p e post Heq.
    destruct (chain_adjacent _ _ _ _ _ _ _ Hchain Heq) as [H1 H2]. split.
    + intros request Hr. rewrite Hr in H1. exact H1.
    + intros serialized Hs. rewrite Hs in H2. exact H2.
Qed.

Lemma signs_what_was_prepared_witness :
  exists request,
    signedRequest (nth 23 (fst (run Reference.world [] (main Reference.viem Reference.sdk Reference.freshEnv)))
                     (Interaction DateNow (Err "none"))) = Some request /\
    preparedRequest (nth 22 (fst (run Reference.world [] (main Reference.viem Reference.sdk Reference.freshEnv)))
                       (Interaction DateNow (Err "none"))) = Some request.
Proof.
  eexists. split.
  - vm_compute. reflexivity.
  - refine (proj1 (proj2 (signs_what_was_prepared_sends_what_was_signed
                            Reference.viem Reference.sdk Reference.freshEnv
                            Reference.world)
                     (firstn 22 (fst (run Reference.world [] (main Reference.viem Reference.sdk Reference.freshEnv))))
                     _
                     (nth 23 (fst (run Reference.world [] (main Reference.viem Reference.sdk Reference.freshEnv)))
                        (Interaction DateNow (Err "none")))
                     (skipn 24 (fst (run Reference.world [] (main Reference.viem Reference.sdk Reference.freshEnv))))
                     _) _ _).
    + vm_compute. reflexivity.
    + vm_compute. reflexivity.
Defined.


(* ================================================================== *)
(** * The contract writes of a run *)
(* ================================================================== *)

Lemma knownWrite_after_any account prev e :
  anyEntry prev -> onlyKnownWrites account None e ->
  onlyKnownWrites account (Some prev) e.
Proof. intros _ H. exact H. Qed.

Ltac known_write :=
  let req := fresh "req" in
  let Hreq := fresh "Hreq" in
  intros req Hreq; cbn [asWrite] in Hreq;
  first
    [ discriminate Hreq
    | injection Hreq as <-;
      split; [reflexivity |];
      first
        [ left; repeat split; reflexivity
        | right; left; repeat split; reflexivity
        | right; right; left; split; [reflexivity |]; split; [reflexivity |];
          eexists; eexists; split; [reflexivity | assumption]
        | right; right; right; split; [reflexivity |]; split; [reflexivity |];
          eexists; eexists; eexists; reflexivity ] ].

Ltac writes_leaf :=
  unfold PhasePost, onlyKnownWrites, anyEntry;
  cbn [chain lastEntry quietOpt];
  (split; [repeat (split; [known_write |]); exact I | intros; exact I]).

Lemma PairTrace_writes account token contract seg o :
  In contract spenders ->
  PairTrace account token contract seg o ->
  PhasePost (onlyKnownWrites account) anyEntry seg o.
Proof. intros Hin H. destruct H; writes_leaf. Qed.

Lemma LoopTrace_writes account pairs tr o :
  (forall token contract, In (token, contract) pairs -> In contract spenders) ->
  LoopTrace account pairs tr o ->
  PhasePost (onlyKnownWrites account) anyEntry tr o.
Proof.
  intros Hpairs H.
  induction H as [| t c rest seg tr o Hseg Hrest IH | t c rest seg m Hseg].
  - apply PhasePost_nil.
  - apply (PhasePost_app _ _ (knownWrite_after_any account) seg tr tt o).
    + apply (PairTrace_writes account t c); [| exact Hseg].
      apply (Hpairs t c). left. reflexivity.
    + apply IH. intros t' c' Hin. apply (Hpairs t' c'). right. exact Hin.
  - apply (PairTrace_writes account t c); [| exact Hseg].
    apply (Hpairs t c). left. reflexivity.
Qed.

Lemma wp_bootstrap_writes viem account :
  wp (bootstrap viem account) (PhasePost (onlyKnownWrites account) anyEntry).
Proof.
  unfold bootstrap. rewrite token_one_supply_value, token_two_supply_value.
  unfold deployToken, createPool, saveCache. rewrite sqrtPriceX96_value.
  wp_exec; writes_leaf.
Qed.

Lemma wp_provision_writes viem sdk account t1 t2 pool :
  wp (provision viem sdk account t1 t2 pool)
     (PhasePost (onlyKnownWrites account) anyEntry).
Proof.
  unfold provision.
  apply (wp_phase_bind _ _ (knownWrite_after_any account)).
  - eapply wp_mono; [| apply wp_giveAllowances].
    intros tr o. apply LoopTrace_writes.
    intros t c Hin. apply in_prod_iff in Hin. apply Hin.
  - intros _. unfold quoteAndSwap. rewrite inputAmountRaw_value.
    wp_exec; writes_leaf.
Qed.

Lemma chain_In step prev tr e :
  (forall p q x, step p x -> step q x) ->
  chain step prev tr -> In e tr -> step None e.
Proof.
  intros Hany. revert prev. induction tr as [| x tr IH]; intros prev Hc Hin.
  - destruct Hin.
  - destruct Hc as [Hs Hc]. destruct Hin as [<- | Hin].
    + exact (Hany _ _ _ Hs).
    + exact (IH _ Hc Hin).
Qed.

(** X4. Every contract write of every run is sent from the account of the
    run and is one of four calls: [createPool] on the factory (no nonce),
    [createAndInitializePoolIfNecessary] on the position manager,
    [approve] (no nonce) naming the position manager or the swap router as
    spender, or [exactInputSingle] on the swap router with the account as
    recipient, [amountOutMinimum = 0], [sqrtPriceLimitX96 = 0] and the
    pool fee 500. *)
Theorem run_writes_only_known_calls :
  forall (viem : Viem) (sdk : UniswapSdk) (env : Env) (w : World) account e req,
    accountOf viem env = Some account ->
    In e (fst (run w [] (main viem sdk env))) ->
    asWrite e = Some req ->
    knownWrite account req.
Proof.
  intros viem sdk env w account e req Hacc Hin Hreq.
  assert (H : PhasePost (onlyKnownWrites account) anyEntry
                (fst (run w [] (main viem sdk env)))
                (snd (run w [] (main viem sdk env)))).
  { apply run_main.
    apply (wp_main_phase _ _ (knownWrite_after_any account)).
    - intros a r req' Hreq'. discriminate Hreq'.
    - intros a b. exact I.
    - intros a Ha. rewrite Hacc in Ha. injection Ha as <-.
      apply wp_bootstrap_writes.
    - intros a t1 t2 pool Ha. rewrite Hacc in Ha. injection Ha as <-.
      apply wp_provision_writes. }
  destruct H as [Hchain _].
  exact (chain_In (onlyKnownWrites account) None _ e
           (fun _ _ _ Hx => Hx) Hchain Hin req Hreq).
Qed.

Lemma run_writes_witness :
  knownWrite Reference.account
    (swapRequest Reference.account Reference.tokenA Reference.tokenB 5 27).
Proof.
  apply (run_writes_only_known_calls Reference.viem Reference.sdk
           Reference.freshEnv Reference.world Reference.account
           (Interaction (WriteContract
                           (swapRequest Reference.account Reference.tokenA
                              Reference.tokenB 5 27))
              (Ok "write:exactInputSingle"))).
  - reflexivity.
  - vm_compute. do 28 right. left. reflexivity.
  - reflexivity.
Defined.

(* ================================================================== *)
(** * [deployToken] and [createPool] *)
(* ================================================================== *)

Lemma wp_deployToken account name symbol supply :
  wp (deployToken account name symbol supply)
     (DeployTrace account name symbol supply).
Proof.
  unfold deployToken.
  wp_exec; try (constructor; fail).
  - apply deploy_without_address.
    match goal with H : contractAddress _ = _ |- _ => rewrite H end. reflexivity.
  - eapply deploy_done; [eassumption | discriminate].
  - apply deploy_without_address.
    match goal with H : contractAddress _ = _ |- _ => rewrite H end. reflexivity.
Qed.

(** X5. Whatever the chain answers, [deployToken] sends the deployment and
    then waits for the receipt of the hash it got, and nothing else.  It
    returns a token only when that receipt carries a non-empty contract
    address: the token has that address and the name, symbol and supply
    passed in.  A receipt without contract address makes it throw
    "Contract address is not defined"; a failed request is passed on. *)
Theorem deployToken_trace :
  forall (w : World) (hist : Trace) account name symbol supply,
  exists tr,
    fst (run w hist (deployToken account name symbol supply)) = hist ++ tr /\
    DeployTrace account name symbol supply tr
      (snd (run w hist (deployToken account name symbol supply))).
Proof.
  intros w hist account name symbol supply.
  apply wp_run. apply wp_deployToken.
Qed.

Lemma wp_createPool viem account tokenOne tokenTwo contracts :
  wp (createPool viem account tokenOne tokenTwo contracts)
     (CreatePoolTrace viem account tokenOne tokenTwo contracts).
Proof.
  unfold createPool. rewrite sqrtPriceX96_value.
  wp_exec; econstructor; eassumption.
Qed.

(** X6. Whatever the chain answers, [createPool] proceeds in this order and
    stops at the first failure: the [createPool] call on the factory, the
    wait for its receipt, the resolution of the pool address from that
    receipt, the transaction-count request, the initialisation call with
    that count as nonce and the price [2^96], the wait for its receipt.
    No initialisation is sent unless the pool address was resolved, and
    the result is the resolved address with the initialisation hash. *)
Theorem createPool_trace :
  forall (viem : Viem) (w : World) (hist : Trace) account tokenOne tokenTwo contracts,
  exists tr,
    fst (run w hist (createPool viem account tokenOne tokenTwo contracts))
      = hist ++ tr /\
    CreatePoolTrace viem account tokenOne tokenTwo contracts tr
      (snd (run w hist (createPool viem account tokenOne tokenTwo contracts))).
Proof.
  intros viem w hist account tokenOne tokenTwo contracts.
  apply wp_run. apply wp_createPool.
Qed.

(* ================================================================== *)
(** * The guards of [main] *)
(* ================================================================== *)

(** X7. The guards at the head of [main].  Without a private key ([undefined]
    or empty) the run throws "Private key is not defined in the environment
    variables" before any request.  In every run the first request, if
    there is one, is the balance request for the account of the key; when
    it fails, or is answered with a balance of zero, nothing else is
    requested, and the zero balance throws "No ETH balance. Cant deploy". *)
Theorem main_guards :
  forall (viem : Viem) (sdk : UniswapSdk) (env : Env) (w : World),
    (Js.truthy (PRIVATE_KEY env) = false ->
     run w [] (main viem sdk env) =
       ([], Err "Private key is not defined in the environment variables")) /\
    (forall e rest,
       fst (run w [] (main viem sdk env)) = e :: rest ->
       exists account,
         accountOf viem env = Some account /\ balanceRequest e = Some account) /\
    (forall e rest,
       fst (run w [] (main viem sdk env)) = e :: rest ->
       balanceAnswer e = Some (Ok 0) ->
       rest = [] /\
       snd (run w [] (main viem sdk env)) = Err "No ETH balance. Cant deploy") /\
    (forall e rest m,
       fst (run w [] (main viem sdk env)) = e :: rest ->
       balanceAnswer e = Some (Err m) ->
       rest = [] /\ snd (run w [] (main viem sdk env)) = Err m).
Proof.
  intros viem sdk env w. split.
  - intro Hkey. unfold main.
    destruct (PRIVATE_KEY env) as [[| c k] |]; [reflexivity | discriminate Hkey | reflexivity].
  - apply (run_main viem sdk env w
      (fun tr o =>
         (forall e rest,
            tr = e :: rest ->
            exists account,
              accountOf viem env = Some account /\ balanceRequest e = Some account) /\
         (forall e rest,
            tr = e :: rest -> balanceAnswer e = Some (Ok 0) ->
            rest = [] /\ o = Err "No ETH balance. Cant deploy") /\
         (forall e rest m,
            tr = e :: rest -> balanceAnswer e = Some (Err m) ->
            rest = [] /\ o = Err m))).
    apply wp_main.
    + intro m. repeat split; intros; discriminate.
    + intros account r m Hacc Hr. split; [| split].
      * intros e rest Heq. injection Heq as <- <-. eauto.
      * intros e rest Heq Hans. injection Heq as <- <-. simpl in Hans.
        destruct Hr as [-> | [-> ->]]; [discriminate Hans | auto].
      * intros e rest m' Heq Hans. injection Heq as <- <-. simpl in Hans.
        destruct Hr as [-> | [-> ->]]; [| discriminate Hans].
        injection Hans as ->. auto.
    + intros account b c1 c2 s1 s2 trP o Hacc Hb _ _ _ _ _ _. split; [| split].
      * intros e rest Heq. injection Heq as <- <-. eauto.
      * intros e rest Heq Hans. injection Heq as <- <-. simpl in Hans.
        injection Hans as ->. contradiction.
      * intros e rest m Heq Hans. injection Heq as <- <-. discriminate Hans.
    + intros account b trB oB Hacc Hb _ _.
      assert (H : forall tail o,
                (forall e rest,
                   Interaction (GetBalance account) (Ok b) :: tail = e :: rest ->
                   exists account0,
                     Some account = Some account0 /\
                     balanceRequest e = Some account0) /\
                (forall e rest,
                   Interaction (GetBalance account) (Ok b) :: tail = e :: rest ->
                   balanceAnswer e = Some (Ok 0) ->
                   rest = [] /\ o = Err "No ETH balance. Cant deploy") /\
                (forall e rest m,
                   Interaction (GetBalance account) (Ok b) :: tail = e :: rest ->
                   balanceAnswer e = Some (Err m) ->
                   rest = [] /\ o = @Err unit m)).
      { intros tail o. split; [| split].
        - intros e rest Heq. injection Heq as <- <-. eauto.
        - intros e rest Heq Hans. injection Heq as <- <-. simpl in Hans.
          injection Hans as ->. contradiction.
        - intros e rest m Heq Hans. injection Heq as <- <-. discriminate Hans. }
      rewrite Hacc.
      destruct oB as [x | m]; [intros t1 t2 p trP o _ _ |]; apply H.
Qed.

Lemma main_guards_witness :
  run Reference.world []
    (main Reference.viem Reference.sdk (mkEnv ["bun"; "index.ts"] None emptyCache)) =
  ([], Err "Private key is not defined in the environment variables").
Proof.
  apply (proj1 (main_guards Reference.viem Reference.sdk
                  (mkEnv ["bun"; "index.ts"] None emptyCache) Reference.world)).
  reflexivity.
Defined.

(** X8. The cache is parsed before the [--create] flag is looked at: when a
    cached token record carries a supply that [parseEther] rejects, the
    run throws before any request, with or without [--create]. *)
Theorem unreadable_cached_supply_stops_the_run :
  forall (viem : Viem) (sdk : UniswapSdk) (env : Env) (w : World) c,
    cache_tokenOne (cache env) = Some c \/ cache_tokenTwo (cache env) = Some c ->
    parseEther (Math_round_Number viem) (cached_tokenSupply c) = None ->
    fst (run w [] (main viem sdk env)) = [] /\
    exists m, snd (run w [] (main viem sdk env)) = Err m.
Proof.
  intros viem sdk env w c Hc Hparse. unfold main.
  destruct (PRIVATE_KEY env) as [[| k0 k] |]; simpl; eauto.
  destruct (privateKeyToAccount viem _) as [account |]; simpl; eauto.
  unfold loadToken.
  destruct Hc as [Hc | Hc]; rewrite Hc.
  - rewrite Hparse. simpl. eauto.
  - destruct (cache_tokenOne (cache env)) as [c1 |].
    + destruct (parseEther _ (cached_tokenSupply c1)); simpl; [| eauto].
      rewrite Hparse. simpl. eauto.
    + simpl. rewrite Hparse. simpl. eauto.
Qed.

Lemma unreadable_cached_supply_witness :
  fst (run Reference.world []
         (main Reference.viem Reference.sdk
            (mkEnv ["bun"; "index.ts"; "--create"] Reference.key
               (mkCache (Some (mkCachedToken Reference.tokenA "Penguin" "PENGUIN" "1e21"))
                  None None)))) = [] /\
  exists m,
    snd (run Reference.world []
           (main Reference.viem Reference.sdk
              (mkEnv ["bun"; "index.ts"; "--create"] Reference.key
                 (mkCache (Some (mkCachedToken Reference.tokenA "Penguin" "PENGUIN" "1e21"))
                    None None)))) = Err m.
Proof.
  apply (unreadable_cached_supply_stops_the_run Reference.viem Reference.sdk
           (mkEnv ["bun"; "index.ts"; "--create"] Reference.key
              (mkCache (Some (mkCachedToken Reference.tokenA "Penguin" "PENGUIN" "1e21"))
                 None None))
           Reference.world
           (mkCachedToken Reference.tokenA "Penguin" "PENGUIN" "1e21")).
  - left. reflexivity.
  - reflexivity.
Defined.

(* ================================================================== *)
(** * The cache a bootstrap writes *)
(* ================================================================== *)

Lemma wp_bootstrap_cache viem account :
  wp (bootstrap viem account) (BootCacheSpec viem account).
Proof.
  unfold bootstrap. rewrite token_one_supply_value, token_two_supply_value.
  unfold deployToken, createPool, saveCache. rewrite sqrtPriceX96_value.
  wp_exec.
  all: unfold BootCacheSpec.
  all: (split; [cbn; lia |]).
  all: intros e data Hin Hsaved; cbn [In] in Hin.
  all: repeat (destruct Hin as [<- | Hin]; [try discriminate Hsaved |]).
  all: try contradiction.
  all: cbn [savedCache] in Hsaved; injection Hsaved as <-.
  all: match goal with
       | H : orderPair (mkToken ?a1 _ _ _) (mkToken ?a2 _ _ _) = (?t1, ?t2) |- _ =>
           assert (Ht1 : t1 = fst (orderPair (deployedOne a1) (deployedTwo a2)))
             by (unfold deployedOne, deployedTwo; rewrite H; reflexivity);
           assert (Ht2 : t2 = snd (orderPair (deployedOne a1) (deployedTwo a2)))
             by (unfold deployedOne, deployedTwo; rewrite H; reflexivity)
       end.
  all: cbn [fst] in *.
  all: do 6 eexists.
  all: (split;
        [unfold receiptAddresses; cbn [flat_map receiptAddress app];
         rewrite Heqo, Heqo0; cbn [app]; reflexivity |]).
  all: (split; [unfold bootstrapCache; rewrite <- Ht1, <- Ht2; reflexivity |]).
  all: rewrite <- Ht1, <- Ht2.
  all: (split; [do 4 right; left; reflexivity |]).
  all: (split; [do 5 right; left; reflexivity |]).
  all: (split; [eassumption |]).
  all: intros out Hout; first [discriminate Hout | injection Hout as <-; reflexivity].
Qed.

Lemma PairTrace_allowanceRead account token contract seg o e t owner s :
  PairTrace account token contract seg o ->
  In e seg -> allowanceRead e = Some (t, owner, s) ->
  t = address token /\ owner = account /\ s = contract.
Proof.
  intros H Hin Hread.
  destruct H; cbn [In] in Hin;
    repeat (destruct Hin as [<- | Hin]; [try discriminate Hread |]);
    try contradiction;
    injection Hread as <- <- <-; auto.
Qed.

Lemma LoopTrace_allowanceRead account pairs tr o e t owner s :
  LoopTrace account pairs tr o ->
  In e tr -> allowanceRead e = Some (t, owner, s) ->
  owner = account /\ exists token, In (token, s) pairs /\ t = address token.
Proof.
  intros H Hin Hread.
  induction H as [| tk c rest seg tr o Hseg Hrest IH | tk c rest seg m Hseg].
  - destruct Hin.
  - apply in_app_or in Hin. destruct Hin as [Hin | Hin].
    + destruct (PairTrace_allowanceRead _ _ _ _ _ _ _ _ _ Hseg Hin Hread)
        as (-> & -> & ->).
      split; [reflexivity |]. exists tk. split; [left; reflexivity | reflexivity].
    + destruct (IH Hin) as (Ho & tok & Htok & Ht).
      split; [exact Ho |]. exists tok. split; [right; exact Htok | exact Ht].
  - destruct (PairTrace_allowanceRead _ _ _ _ _ _ _ _ _ Hseg Hin Hread)
      as (-> & -> & ->).
    split; [reflexivity |]. exists tk. split; [left; reflexivity | reflexivity].
Qed.

Lemma wp_provision_allowanceTokens viem sdk account t1 t2 pool :
  wp (provision viem sdk account t1 t2 pool) (AllowanceTokens account t1 t2 pool).
Proof.
  unfold provision. apply wp_bind.
  eapply wp_mono; [| apply wp_giveAllowances].
  intros trA o Hloop.
  assert (HA : forall tail o',
             (forall e, In e tail -> allowanceRead e = None) ->
             AllowanceTokens account t1 t2 pool (trA ++ tail) o').
  { intros tail o' Htail e t owner s Hin Hread.
    apply in_app_or in Hin. destruct Hin as [Hin | Hin].
    - destruct (LoopTrace_allowanceRead _ _ _ _ _ _ _ _ Hloop Hin Hread)
        as (-> & tok & Htok & ->).
      split; [reflexivity |].
      apply in_prod_iff in Htok. destruct Htok as [[<- | [<- | []]] _]; auto.
    - rewrite (Htail e Hin) in Hread. discriminate Hread. }
  destruct o as [[] | m].
  - unfold quoteAndSwap. rewrite inputAmountRaw_value.
    match goal with |- wp _ ?post => set (Q := post) end.
    wp_exec; subst Q; cbv beta; apply HA; intros e Hin; cbn [In] in Hin;
      repeat (destruct Hin as [<- | Hin]; [reflexivity |]); contradiction.
  - rewrite <- (app_nil_r trA). apply HA. intros e [].
Qed.

Section MainWith.

Variable viem : Viem.
Variable sdk : UniswapSdk.

(** [wp_main] with further postconditions of the two phases at hand. *)
Lemma wp_main_with (env : Env)
    (B : Address -> Trace ->
         Outcome (option Token * option Token * option Address) -> Prop)
    (P : Address -> Token -> Token -> option Address -> Trace ->
         Outcome unit -> Prop)
    (Q : Trace -> Outcome unit -> Prop) :
  (forall account, wp (bootstrap viem account) (B account)) ->
  (forall account t1 t2 pool,
     wp (provision viem sdk account t1 t2 pool) (P account t1 t2 pool)) ->
  (forall m, Q [] (Err m)) ->
  (forall account r m,
     accountOf viem env = Some account ->
     r = Err m \/ (r = Ok 0 /\ m = "No ETH balance. Cant deploy"%string) ->
     Q [Interaction (GetBalance account) r] (Err m)) ->
  (forall account b c1 c2 s1 s2 trP o,
     accountOf viem env = Some account ->
     b <> 0 ->
     create env = false ->
     cache_tokenOne (cache env) = Some c1 ->
     cache_tokenTwo (cache env) = Some c2 ->
     parseEther (Math_round_Number viem) (cached_tokenSupply c1) = Some s1 ->
     parseEther (Math_round_Number viem) (cached_tokenSupply c2) = Some s2 ->
     ProvSpec viem account (loaded c1 s1) (loaded c2 s2)
       (cache_poolAddress (cache env)) trP o ->
     P account (loaded c1 s1) (loaded c2 s2) (cache_poolAddress (cache env)) trP o ->
     Q (Interaction (GetBalance account) (Ok b) :: trP) o) ->
  (forall account b trB oB,
     accountOf viem env = Some account ->
     b <> 0 ->
     create env = true \/ cache_tokenOne (cache env) = None
       \/ cache_tokenTwo (cache env) = None ->
     BootSpec account trB oB ->
     B account trB oB ->
     match oB with
     | Err m => Q (Interaction (GetBalance account) (Ok b) :: trB) (Err m)
     | Ok _ =>
         forall t1 t2 p trP o,
           oB = Ok (Some t1, Some t2, Some p) ->
           ProvSpec viem account t1 t2 (Some p) trP o ->
           P account t1 t2 (Some p) trP o ->
           Q (Interaction (GetBalance account) (Ok b) :: trB ++ trP) o
     end) ->
  wp (main viem sdk env) Q.
Proof.
  intros HB HP Hstop Hbalance Hresume Hboot.
  unfold main. unfold accountOf in *.
  destruct (PRIVATE_KEY env) as [[| k0 k] |]; try apply Hstop.
  destruct (privateKeyToAccount viem ("0x" ++ String k0 k)%string) as [account |];
    [| apply Hstop].
  specialize (Hbalance account). specialize (Hresume account).
  specialize (Hboot account).
  unfold loadToken.
  destruct (cache_tokenOne (cache env)) as [c1 |] eqn:Hc1;
    destruct (cache_tokenTwo (cache env)) as [c2 |] eqn:Hc2.
  all: repeat match goal with
         | |- context [parseEther ?R (cached_tokenSupply ?c)] =>
             destruct (parseEther R (cached_tokenSupply c)) eqn:?
         end.
  all: cbn [wp bind await orThrow]; try apply Hstop.
  all: (split; [intro m; apply Hbalance; auto |]).
  all: intro b; destruct (Z.eqb_spec b 0) as [-> | Hb];
         [cbn [wp]; apply Hbalance; auto |].
  all: unfold needsBootstrap.
  all: destruct (create env) eqn:Hcreate; cbn [orb negb].
  all: try (apply wp_bind;
            eapply wp_mono; [| exact (wp_conj _ _ _ (wp_bootstrap viem account) (HB account))];
            intros trB oB [HBoot HBx];
            first [ pose proof (Hboot b trB oB eq_refl Hb (or_introl eq_refl) HBoot HBx) as Hcase
                  | pose proof (Hboot b trB oB eq_refl Hb
                                  (or_intror (or_introl eq_refl)) HBoot HBx) as Hcase
                  | pose proof (Hboot b trB oB eq_refl Hb
                                  (or_intror (or_intror eq_refl)) HBoot HBx) as Hcase ];
            destruct oB as [x | m]; [| exact Hcase];
            destruct HBoot as (_ & _ & _ & Hshape);
            destruct (Hshape x eq_refl) as (t1 & t2 & p & ->);
            eapply wp_mono;
              [| exact (wp_conj _ _ _ (wp_provision viem sdk account t1 t2 (Some p))
                          (HP account t1 t2 (Some p)))];
            intros trP o [HPr HPx]; exact (Hcase t1 t2 p trP o eq_refl HPr HPx)).
  cbn [bind].
  eapply wp_mono;
    [| exact (wp_conj _ _ _ (wp_provision viem sdk account _ _ _) (HP account _ _ _))].
  intros trP o [HPr HPx]. eapply Hresume; eauto.
Qed.

End MainWith.

(* ================================================================== *)
(** * What a run saves, and what it does with it *)
(* ================================================================== *)

Lemma postBootstrap_not_saved e :
  postBootstrap e -> isSaveCache e = false /\ savedCache e = None.
Proof.
  unfold postBootstrap, isBootstrapEntry.
  destruct e as [X [] r]; cbn; intro H; try (split; reflexivity).
  try rewrite !Bool.orb_true_r in H. discriminate H.
Qed.

Lemma postBootstrap_filter tr :
  Forall postBootstrap tr -> filter isSaveCache tr = [].
Proof.
  induction 1 as [| e tr He _ IH]; [reflexivity |].
  cbn [filter]. rewrite (proj1 (postBootstrap_not_saved e He)). exact IH.
Qed.

Lemma postBootstrap_In_not_saved tr e data :
  Forall postBootstrap tr -> In e tr -> savedCache e = Some data -> False.
Proof.
  intros Hall Hin Hsaved. rewrite Forall_forall in Hall.
  rewrite (proj2 (postBootstrap_not_saved e (Hall e Hin))) in Hsaved.
  discriminate Hsaved.
Qed.

Lemma wp_bootstrap_no_reads viem account :
  wp (bootstrap viem account)
     (fun tr _ => forall e, In e tr -> allowanceRead e = None /\ poolRead e = None).
Proof.
  unfold bootstrap. rewrite token_one_supply_value, token_two_supply_value.
  unfold deployToken, createPool, saveCache. rewrite sqrtPriceX96_value.
  match goal with |- wp _ ?post => set (Q := post) end.
  wp_exec; subst Q; cbv beta; intros e Hin; cbn [In] in Hin;
    repeat (destruct Hin as [<- | Hin]; [split; reflexivity |]); contradiction.
Qed.

Lemma wp_main_saved viem sdk env :
  wp (main viem sdk env) (fun tr _ => SavedSpec viem env tr).
Proof.
  apply (wp_main_with viem sdk env
           (BootCacheSpec viem) (fun _ _ _ _ _ _ => True)).
  - intro account. apply wp_bootstrap_cache.
  - intros account t1 t2 pool. eapply wp_mono; [| apply wp_provision].
    intros; exact I.
  - intro m. split; [cbn; lia | intros e data []].
  - intros account r m _ _. split; [cbn; lia |].
    intros e data [<- | []] H. discriminate H.
  - intros account b c1 c2 s1 s2 trP o _ _ _ _ _ _ _ HP _.
    pose proof (ProvSpec_postBootstrap _ _ _ _ _ _ _ HP) as Hpost.
    split.
    + cbn [filter isSaveCache]. rewrite (postBootstrap_filter _ Hpost). cbn; lia.
    + intros e data [<- | Hin] Hsaved; [discriminate Hsaved |].
      destruct (postBootstrap_In_not_saved _ _ _ Hpost Hin Hsaved).
  - intros account b trB oB Hacc _ Hcond _ [Hone Hdata].
    assert (Hcase : forall trP,
               Forall postBootstrap trP ->
               SavedSpec viem env
                 (Interaction (GetBalance account) (Ok b) :: trB ++ trP)).
    { intros trP Hpost. split.
      - cbn [filter isSaveCache]. rewrite filter_app, (postBootstrap_filter _ Hpost).
        rewrite app_nil_r. exact Hone.
      - intros e data [<- | Hin] Hsaved; [discriminate Hsaved |].
        apply in_app_or in Hin. destruct Hin as [Hin | Hin];
          [| destruct (postBootstrap_In_not_saved _ _ _ Hpost Hin Hsaved)].
        split; [exact Hcond |].
        destruct (Hdata e data Hin Hsaved)
          as (a1 & a2 & more & pool & hash & receipt & Hr & -> & Hw & Hwait & Hres & _).
        exists account, a1, a2, (more ++ receiptAddresses trP), pool, hash, receipt.
        split; [exact Hacc |]. split.
        { change (Interaction (GetBalance account) (Ok b) :: trB ++ trP)
            with ([Interaction (GetBalance account) (Ok b)] ++ (trB ++ trP)).
          rewrite !receiptAddresses_app, Hr. reflexivity. }
        split; [reflexivity |].
        split; [right; apply in_or_app; left; exact Hw |].
        split; [right; apply in_or_app; left; exact Hwait | exact Hres]. }
    destruct oB as [x | m].
    + intros t1 t2 p trP o _ HP _.
      apply Hcase. exact (ProvSpec_postBootstrap _ _ _ _ _ _ _ HP).
    + rewrite <- (app_nil_r trB). apply Hcase. constructor.
Qed.



Lemma wp_main_uses_saved viem sdk env :
  wp (main viem sdk env) (fun tr _ => UsesSaved tr).
Proof.
  apply (wp_main_with viem sdk env
           (fun account tr o =>
              BootCacheSpec viem account tr o /\
              forall e, In e tr -> allowanceRead e = None /\ poolRead e = None)
           AllowanceTokens).
  - intro account. apply wp_conj; [apply wp_bootstrap_cache | apply wp_bootstrap_no_reads].
  - intros account t1 t2 pool. apply wp_provision_allowanceTokens.
  - intros m e data [].
  - intros account r m _ _ e data [<- | []] H. discriminate H.
  - intros account b c1 c2 s1 s2 trP o _ _ _ _ _ _ _ HP _ e data [<- | Hin] Hsaved;
      [discriminate Hsaved |].
    destruct (postBootstrap_In_not_saved _ _ _
                (ProvSpec_postBootstrap _ _ _ _ _ _ _ HP) Hin Hsaved).
  - intros account b trB oB _ _ _ _ [[_ Hdata] Hquiet].
    assert (Hcase : forall trP,
               Forall postBootstrap trP ->
               forall e data,
                 In e (Interaction (GetBalance account) (Ok b) :: trB ++ trP) ->
                 savedCache e = Some data ->
                 exists a1 a2 pool,
                   In e trB /\ data = bootstrapCache a1 a2 pool /\
                   (forall x, oB = Ok x ->
                      x = (Some (fst (orderPair (deployedOne a1) (deployedTwo a2))),
                           Some (snd (orderPair (deployedOne a1) (deployedTwo a2))),
                           Some pool))).
    { intros trP Hpost e data [<- | Hin] Hsaved; [discriminate Hsaved |].
      apply in_app_or in Hin. destruct Hin as [Hin | Hin];
        [| destruct (postBootstrap_In_not_saved _ _ _ Hpost Hin Hsaved)].
      destruct (Hdata e data Hin Hsaved)
        as (a1 & a2 & more & pool & hash & receipt & _ & -> & _ & _ & _ & Hout).
      exists a1, a2, pool. auto. }
    destruct oB as [x | m].
    + intros t1 t2 p trP o Hx HP Hallow e data Hin Hsaved.
      injection Hx as ->.
      destruct (Hcase trP (ProvSpec_postBootstrap _ _ _ _ _ _ _ HP) e data Hin Hsaved)
        as (a1 & a2 & pool & _ & -> & Hout).
      specialize (Hout _ eq_refl). injection Hout as -> -> ->.
      eexists; eexists. split; [reflexivity |]. split; [reflexivity |]. split.
      * intros e' token owner spender [<- | Hin'] Hread; [discriminate Hread |].
        apply in_app_or in Hin'. destruct Hin' as [Hin' | Hin'].
        { rewrite (proj1 (Hquiet e' Hin')) in Hread. discriminate Hread. }
        exact (proj2 (Hallow e' token owner spender Hin' Hread)).
      * intros e' q [<- | Hin'] Hread; [discriminate Hread |].
        apply in_app_or in Hin'. destruct Hin' as [Hin' | Hin'].
        { rewrite (proj2 (Hquiet e' Hin')) in Hread. discriminate Hread. }
        exact (ProvSpec_poolReads _ _ _ _ _ _ _ HP e' q Hin' Hread).
    + intros e data Hin Hsaved.
      rewrite <- (app_nil_r trB) in Hin.
      destruct (Hcase [] (Forall_nil _) e data Hin Hsaved)
        as (a1 & a2 & pool & _ & -> & _).
      eexists; eexists. split; [reflexivity |]. split; [reflexivity |].
      rewrite app_nil_r in Hin.
      split.
      * intros e' token owner spender [<- | Hin'] Hread; [discriminate Hread |].
        rewrite (proj1 (Hquiet e' Hin')) in Hread. discriminate Hread.
      * intros e' q [<- | Hin'] Hread; [discriminate Hread |].
        rewrite (proj2 (Hquiet e' Hin')) in Hread. discriminate Hread.
Qed.

(** X10. A run that wrote the cache goes on with what it wrote: the record
    holds both tokens, every allowance the run reads is an allowance of one
    of the two saved token addresses, and the only pool whose state the run
    reads is the saved pool address. *)
Theorem run_goes_on_with_what_it_saved :
  forall (viem : Viem) (sdk : UniswapSdk) (env : Env) (w : World) e data,
    In e (fst (run w [] (main viem sdk env))) ->
    savedCache e = Some data ->
    exists c1 c2,
      cache_tokenOne data = Some c1 /\ cache_tokenTwo data = Some c2 /\
      (forall e' token owner spender,
         In e' (fst (run w [] (main viem sdk env))) ->
         allowanceRead e' = Some (token, owner, spender) ->
         token = cached_address c1 \/ token = cached_address c2) /\
      (forall e' pool,
         In e' (fst (run w [] (main viem sdk env))) ->
         poolRead e' = Some pool -> pool = cache_poolAddress data).
Proof.
  intros viem sdk env w.
  exact (run_main viem sdk env w _ (wp_main_uses_saved viem sdk env)).
Qed.

Lemma run_goes_on_witness :
  exists c1 c2,
    cache_tokenOne (cache Reference.resumeEnv) = Some c1 /\
    cache_tokenTwo (cache Reference.resumeEnv) = Some c2 /\
    (forall e' token owner spender,
       In e' (fst (run Reference.world [] (main Reference.viem Reference.sdk
                                              Reference.freshEnv))) ->
       allowanceRead e' = Some (token, owner, spender) ->
       token = cached_address c1 \/ token = cached_address c2) /\
    (forall e' pool,
       In e' (fst (run Reference.world [] (main Reference.viem Reference.sdk
                                              Reference.freshEnv))) ->
       poolRead e' = Some pool -> pool = cache_poolAddress (cache Reference.resumeEnv)).
Proof.
  apply (run_goes_on_with_what_it_saved Reference.viem Reference.sdk
           Reference.freshEnv Reference.world
           (Interaction (SaveCache (cache Reference.resumeEnv)) (Ok tt))).
  - vm_compute. do 10 right. left. reflexivity.
  - reflexivity.
Defined.

(* ================================================================== *)
(** * From one run to the next *)
(* ================================================================== *)

(** With both token records of an earlier run in the cache and no
    [--create], [main] is the balance request followed by the later
    phases on the reloaded tokens. *)
Lemma main_resumed viem sdk env account t1 t2 :
  accountOf viem env = Some account ->
  create env = false ->
  cache_tokenOne (cache env) = Some (toCached t1) ->
  cache_tokenTwo (cache env) = Some (toCached t2) ->
  main viem sdk env =
    (ethBalance <- await (GetBalance account) ;;
     if ethBalance =? 0 then Throw "No ETH balance. Cant deploy"
     else provision viem sdk account (reloaded t1) (reloaded t2)
            (cache_poolAddress (cache env))).
Proof.
  unfold accountOf, main. intros Hacc Hcreate Hc1 Hc2.
  destruct (PRIVATE_KEY env) as [[| k0 k] |]; try discriminate Hacc.
  rewrite Hacc, Hc1, Hc2, Hcreate. unfold loadToken.
  cbn [toCached cached_tokenSupply].
  rewrite !parseEther_String_of_bigint.
  reflexivity.
Qed.

Lemma wp_resumed viem sdk account t1 t2 pool :
  wp (ethBalance <- await (GetBalance account) ;;
      if ethBalance =? 0 then Throw "No ETH balance. Cant deploy"
      else provision viem sdk account t1 t2 pool)
     (fun tr o =>
        exists r rest,
          tr = Interaction (GetBalance account) r :: rest /\
          (rest = [] \/
           ProvSpec viem account t1 t2 pool rest o /\
           AllowanceTokens account t1 t2 pool rest o)).
Proof.
  cbn [bind await wp]. split.
  - intro m. exists (Err m), []. auto.
  - intro b. destruct (b =? 0).
    + cbn [wp]. exists (Ok b), []. auto.
    + eapply wp_mono;
        [| exact (wp_conj _ _ _ (wp_provision viem sdk account t1 t2 pool)
                    (wp_provision_allowanceTokens viem sdk account t1 t2 pool))].
      intros tr o H. exists (Ok b), tr. auto.
Qed.

Lemma orderPair_fst_snd (x y : Token) :
  (fst (orderPair x y) = x /\ snd (orderPair x y) = y) \/
  (fst (orderPair x y) = y /\ snd (orderPair x y) = x).
Proof. unfold orderPair. destruct (Js.lt _ _); auto. Qed.

(** X11. The cache a run writes lets the next run resume. When a later run
    starts from the record an earlier run saved, without [--create] and
    with a key viem accepts, it does not stop while loading the cache: its
    first request is the balance request. After it, the run issues no
    bootstrap request, reads allowances only of the account for the two
    addresses at which the earlier run deployed its tokens, and reads the
    state of no pool but the one the earlier run saved. *)
Theorem saved_cache_resumes_the_next_run :
  forall (viem : Viem) (sdk : UniswapSdk) (env : Env) (w : World) e data
         (env' : Env) (w' : World) account',
    In e (fst (run w [] (main viem sdk env))) ->
    savedCache e = Some data ->
    cache env' = data ->
    create env' = false ->
    accountOf viem env' = Some account' ->
    exists a1 a2 more r rest,
      receiptAddresses (fst (run w [] (main viem sdk env))) = a1 :: a2 :: more /\
      fst (run w' [] (main viem sdk env')) =
        Interaction (GetBalance account') r :: rest /\
      Forall postBootstrap rest /\
      (forall e' token owner spender,
         In e' rest -> allowanceRead e' = Some (token, owner, spender) ->
         owner = account' /\ (token = a1 \/ token = a2)) /\
      (forall e' pool,
         In e' rest -> poolRead e' = Some pool ->
         pool = cache_poolAddress data /\ pool <> None).
Proof.
  intros viem sdk env w e data env' w' account' Hin Hsaved Hcache Hcreate Hacc.
  destruct (run_main viem sdk env w _ (wp_main_saved viem sdk env)) as [_ Hdata].
  destruct (Hdata e data Hin Hsaved)
    as (_ & account & a1 & a2 & more & pool & hash & receipt & _ & Hr & -> & _).
  exists a1, a2, more.
  rewrite (main_resumed viem sdk env' account'
             (fst (orderPair (deployedOne a1) (deployedTwo a2)))
             (snd (orderPair (deployedOne a1) (deployedTwo a2))) Hacc Hcreate)
    by (rewrite Hcache; reflexivity).
  destruct (wp_run _ _
              (wp_resumed viem sdk account'
                 (reloaded (fst (orderPair (deployedOne a1) (deployedTwo a2))))
                 (reloaded (snd (orderPair (deployedOne a1) (deployedTwo a2))))
                 (cache_poolAddress (cache env')))
              w' [])
    as (tr & -> & r & rest & -> & Hrest).
  exists r, rest. split; [exact Hr |]. split; [reflexivity |].
  destruct Hrest as [-> | [HP Hallow]].
  - split; [constructor |]. split; intros e' ? ; intros; contradiction.
  - split; [exact (ProvSpec_postBootstrap _ _ _ _ _ _ _ HP) |]. split.
    + intros e' token owner spender Hin' Hread.
      destruct (Hallow e' token owner spender Hin' Hread) as [-> Htok].
      split; [reflexivity |].
      unfold reloaded, loaded in Htok. cbn [address toCached cached_address] in Htok.
      destruct (orderPair_fst_snd (deployedOne a1) (deployedTwo a2)) as [[E1 E2] | [E1 E2]];
        rewrite E1, E2 in Htok; cbn [address deployedOne deployedTwo] in Htok; tauto.
    + intros e' q Hin' Hread.
      rewrite (ProvSpec_poolReads _ _ _ _ _ _ _ HP e' q Hin' Hread), Hcache.
      split; [reflexivity | discriminate].
Qed.

Lemma saved_cache_resumes_witness :
  exists a1 a2 more r rest,
    receiptAddresses
      (fst (run Reference.world [] (main Reference.viem Reference.sdk
                                      Reference.freshEnv))) = a1 :: a2 :: more /\
    fst (run Reference.world [] (main Reference.viem Reference.sdk
                                   Reference.resumeEnv)) =
      Interaction (GetBalance Reference.account) r :: rest /\
    Forall postBootstrap rest /\
    (forall e' token owner spender,
       In e' rest -> allowanceRead e' = Some (token, owner, spender) ->
       owner = Reference.account /\ (token = a1 \/ token = a2)) /\
    (forall e' pool,
       In e' rest -> poolRead e' = Some pool ->
       pool = cache_poolAddress (cache Reference.resumeEnv) /\ pool <> None).
Proof.
  apply (saved_cache_resumes_the_next_run Reference.viem Reference.sdk
           Reference.freshEnv Reference.world
           (Interaction (SaveCache (cache Reference.resumeEnv)) (Ok tt))
           (cache Reference.resumeEnv) Reference.resumeEnv Reference.world
           Reference.account).
  - vm_compute. do 10 right. left. reflexivity.
  - reflexivity.
  - reflexivity.
  - reflexivity.
  - reflexivity.
Defined.

(* ================================================================== *)
(** * The allowance loop on a chain that has the allowances *)
(* ================================================================== *)

Lemma run_bind {A B} (w : World) (p : Prog A) (f : A -> Prog B) (hist : Trace) :
  run w hist (bind p f) =
    match snd (run w hist p) with
    | Ok a => run w (fst (run w hist p)) (f a)
    | Err m => (fst (run w hist p), Err m)
    end.
Proof.
  revert hist. induction p as [a | m | X e k IH]; intro hist; cbn [bind run fst snd].
  - reflexivity.
  - reflexivity.
  - destruct (w X hist e) as [x | m]; [apply IH | reflexivity].
Qed.

(** A loop whose body always completes runs the body on every element. *)
Lemma run_forOf {A K} (w : World) (body : A -> Prog unit)
    (proj : Entry -> K) (g : A -> list K) (xs : list A) :
  (forall x hist, exists tr,
      run w hist (body x) = (hist ++ tr, Ok tt) /\ map proj tr = g x) ->
  forall hist, exists tr,
    run w hist (forOf xs body) = (hist ++ tr, Ok tt) /\ map proj tr = flat_map g xs.
Proof.
  intro Hbody. induction xs as [| x rest IH]; intro hist; cbn [forOf flat_map].
  - exists []. rewrite app_nil_r. split; reflexivity.
  - destruct (Hbody x hist) as (tr1 & Hrun1 & Hmap1).
    destruct (IH (hist ++ tr1)) as (tr2 & Hrun2 & Hmap2).
    exists (tr1 ++ tr2). rewrite run_bind, Hrun1. cbn [fst snd].
    rewrite Hrun2, app_assoc, map_app, Hmap1, Hmap2. split; reflexivity.
Qed.

Lemma allowancePairs_flat_map account tokens contracts :
  flat_map (fun token =>
              flat_map (fun contract => [Some (address token, account, contract)])
                       contracts) tokens
  = allowancePairs account tokens contracts.
Proof.
  unfold allowancePairs.
  induction tokens as [| t rest IH]; cbn [flat_map list_prod]; [reflexivity |].
  rewrite map_app, map_map, IH. apply f_equal2; [| reflexivity].
  clear IH. induction contracts as [| c cs IHc]; cbn [flat_map map app];
    [reflexivity | now rewrite IHc].
Qed.

(** X12. On a chain that answers every allowance read of the account with
    a nonzero allowance, [giveAllowances] completes and sends nothing: the
    requests it makes are the allowance reads of each token for each
    spender, tokens in the outer loop and spenders in the inner one, each
    pair once, and nothing else. *)
Theorem giveAllowances_only_reads_when_granted :
  forall (w : World) (hist : Trace) (account : Address)
         (tokens : list Token) (contracts : list Address),
    (forall h token spender,
        exists allowance,
          w Z h (ReadAllowance token account spender) = Ok allowance /\
          allowance <> 0) ->
    exists tr,
      run w hist (giveAllowances account tokens contracts) = (hist ++ tr, Ok tt) /\
      map grantedRead tr = allowancePairs account tokens contracts.
Proof.
  intros w hist account tokens contracts Hgranted.
  rewrite <- allowancePairs_flat_map. unfold giveAllowances.
  apply run_forOf. clear hist. intros token hist.
  apply run_forOf. clear hist. intros contract hist.
  destruct (Hgranted hist (address token) contract) as (allowance & Hw & Hnz).
  exists [Interaction (ReadAllowance (address token) account contract) (Ok allowance)].
  unfold ensureAllowance. cbn [bind await run]. rewrite Hw.
  apply Z.eqb_neq in Hnz. rewrite Hnz. cbn [run map grantedRead]. rewrite Hnz.
  split; reflexivity.
Qed.

Lemma giveAllowances_only_reads_witness :
  exists tr,
    run Approved.world [] (giveAllowances Reference.account Approved.tokens
                             Approved.contracts) = ([] ++ tr, Ok tt) /\
    map grantedRead tr =
      allowancePairs Reference.account Approved.tokens Approved.contracts.
Proof.
  apply (giveAllowances_only_reads_when_granted Approved.world [] Reference.account
           Approved.tokens Approved.contracts).
  intros h token spender. exists 7. split; [reflexivity | lia].
Defined.

(* ================================================================== *)
(** * Ordering an ordered pair *)
(* ================================================================== *)

(** X13. The pair is ordered after the deployments and once more before the
    pool is read.  Ordering a pair that [orderPair] returned leaves it as
    it is when the two lower-cased addresses differ; when they are equal,
    the second ordering swaps the pair back into the order of the
    arguments of the first. *)
Theorem orderPair_twice :
  forall (t1 t2 : Token),
    (Js.toLowerCase (address t1) <> Js.toLowerCase (address t2) ->
     orderPair (fst (orderPair t1 t2)) (snd (orderPair t1 t2)) = orderPair t1 t2) /\
    (Js.toLowerCase (address t1) = Js.toLowerCase (address t2) ->
     orderPair t1 t2 = (t2, t1) /\
     orderPair (fst (orderPair t1 t2)) (snd (orderPair t1 t2)) = (t1, t2)).
Proof.
  intros t1 t2. unfold orderPair, Js.lt.
  destruct (ltb_cases (Js.toLowerCase (address t1)) (Js.toLowerCase (address t2)))
    as [[H12 H21] | [[H12 H21] | (H12 & H21 & Heq)]];
    rewrite H12; cbn [fst snd]; rewrite ?H12, ?H21; split; intro H.
  - reflexivity.
  - rewrite H in H12, H21. congruence.
  - reflexivity.
  - rewrite H in H12, H21. congruence.
  - contradiction.
  - split; reflexivity.
Qed.

Lemma orderPair_twice_witness :
  (orderPair (fst (orderPair (mkToken Reference.tokenB "Pudgy" "PUDGY" (10 ^ 21))
                             (mkToken Reference.tokenA "Penguin" "PENGUIN" (10 ^ 21))))
             (snd (orderPair (mkToken Reference.tokenB "Pudgy" "PUDGY" (10 ^ 21))
                             (mkToken Reference.tokenA "Penguin" "PENGUIN" (10 ^ 21))))
   = orderPair (mkToken Reference.tokenB "Pudgy" "PUDGY" (10 ^ 21))
               (mkToken Reference.tokenA "Penguin" "PENGUIN" (10 ^ 21))) /\
  (orderPair (mkToken "0xAB" "Pudgy" "PUDGY" 1) (mkToken "0xab" "Penguin" "PENGUIN" 1)
   = (mkToken "0xab" "Penguin" "PENGUIN" 1, mkToken "0xAB" "Pudgy" "PUDGY" 1) /\
   orderPair
     (fst (orderPair (mkToken "0xAB" "Pudgy" "PUDGY" 1)
                     (mkToken "0xab" "Penguin" "PENGUIN" 1)))
     (snd (orderPair (mkToken "0xAB" "Pudgy" "PUDGY" 1)
                     (mkToken "0xab" "Penguin" "PENGUIN" 1)))
   = (mkToken "0xAB" "Pudgy" "PUDGY" 1, mkToken "0xab" "Penguin" "PENGUIN" 1)).
Proof.
  split.
  - apply (proj1 (orderPair_twice (mkToken Reference.tokenB "Pudgy" "PUDGY" (10 ^ 21))
                    (mkToken Reference.tokenA "Penguin" "PENGUIN" (10 ^ 21)))).
    vm_compute. discriminate.
  - apply (proj2 (orderPair_twice (mkToken "0xAB" "Pudgy" "PUDGY" 1)
                    (mkToken "0xab" "Penguin" "PENGUIN" 1))).
    reflexivity.
Defined.

(* ================================================================== *)
(** * The mint transaction *)
(* ================================================================== *)










